(** * n8n-smart-buffer: configuration, validator and semantic patterns

    A shallow embedding of the repository's sources:

    - [config/medical-config.js]: the industry configuration object
      (module [MedicalConfig]) and the environment template [.env.example]
      (module [EnvExample]);
    - [scripts/validate-config.js]: the [ConfigValidator] class and [main]
      (module [Validator]);
    - the JavaScript machinery those files rely on: strings as sequences of
      UTF-16 code units, regular expressions (module [Regex]), plain data
      values (module [Js]).

    The Semantic Analyzer itself is not among the sources; its
    classification steps are modelled from the specification in module
    [SemanticAnalyzer]. *)

From Stdlib Require Import Floats NArith ZArith Ascii String List Lia.
From stdpp Require Import gmap strings list pretty.

Set Warnings "-register-all,-inexact-float".

Local Open Scope N_scope.

(** ** JavaScript strings

    A JavaScript string is a sequence of UTF-16 code units.  Source text and
    environment values are written here as Rocq strings holding UTF-8, and
    [utf16] gives the code units JavaScript sees. *)

Module Text.

Definition code (a : ascii) : N := N_of_ascii a.

Fixpoint bytes (s : string) : list N :=
  match s with
  | EmptyString => []
  | String a s' => code a :: bytes s'
  end.

Definition is_cont (b : N) : bool := (128 <=? b) && (b <? 192).

(** The replacement character U+FFFD stands for a malformed byte. *)
Definition replacement : N := 65533.

Fixpoint utf8_decode (bs : list N) : list N :=
  match bs with
  | [] => []
  | b0 :: r0 =>
    if b0 <? 128 then b0 :: utf8_decode r0
    else
      match r0 with
      | b1 :: r1 =>
        if (192 <=? b0) && (b0 <? 224) && is_cont b1
        then ((b0 - 192) * 64 + (b1 - 128)) :: utf8_decode r1
        else
          match r1 with
          | b2 :: r2 =>
            if (224 <=? b0) && (b0 <? 240) && is_cont b1 && is_cont b2
            then ((b0 - 224) * 4096 + (b1 - 128) * 64 + (b2 - 128))
                   :: utf8_decode r2
            else
              match r2 with
              | b3 :: r3 =>
                if (240 <=? b0) && (b0 <? 248)
                   && is_cont b1 && is_cont b2 && is_cont b3
                then ((b0 - 240) * 262144 + (b1 - 128) * 4096
                      + (b2 - 128) * 64 + (b3 - 128)) :: utf8_decode r3
                else replacement :: utf8_decode r0
              | [] => replacement :: utf8_decode r0
              end
          | [] => replacement :: utf8_decode r0
          end
      | [] => [replacement]
      end
  end.

(** A code point above U+FFFF is a surrogate pair in UTF-16. *)
Definition to_utf16 (cp : N) : list N :=
  if cp <? 65536 then [cp]
  else [55296 + (cp - 65536) / 1024; 56320 + (cp - 65536) mod 1024].

Definition utf16 (s : string) : list N :=
  flat_map to_utf16 (utf8_decode (bytes s)).

(** [WhiteSpace] and [LineTerminator] of ECMAScript: what [trim] removes,
    what [parseInt] skips and what [\s] matches. *)
Definition is_line_terminator (c : N) : bool :=
  (c =? 10) || (c =? 13) || (c =? 8232) || (c =? 8233).

Definition is_white_space (c : N) : bool :=
  (c =? 9) || (c =? 11) || (c =? 12) || (c =? 32) || (c =? 160)
  || (c =? 5760) || ((8192 <=? c) && (c <=? 8202))
  || (c =? 8239) || (c =? 8287) || (c =? 12288) || (c =? 65279).

Definition is_space (c : N) : bool := is_white_space c || is_line_terminator c.

Definition is_digit (c : N) : bool := (48 <=? c) && (c <=? 57).

Definition is_word (c : N) : bool :=
  ((97 <=? c) && (c <=? 122)) || ((65 <=? c) && (c <=? 90))
  || is_digit c || (c =? 95).

(** [String.prototype.toLowerCase] and [toUpperCase] on one code unit, for
    the code units U+0000..U+00FF (ASCII and Latin-1, which covers the
    Spanish texts of the medical configuration).  Code units above U+00FF
    are left unchanged by this model. *)
Definition to_lower (c : N) : N :=
  if (65 <=? c) && (c <=? 90) then c + 32
  else if (192 <=? c) && (c <=? 222) && negb (c =? 215) then c + 32
  else c.

Definition lower (t : list N) : list N := map to_lower t.

Fixpoint drop_space (t : list N) : list N :=
  match t with
  | c :: t' => if is_space c then drop_space t' else t
  | [] => []
  end.

(** [String.prototype.trim]. *)
Definition trim (t : list N) : list N :=
  rev (drop_space (rev (drop_space t))).

(** The slice [t[i..j)]. *)
Definition slice (t : list N) (i j : nat) : list N :=
  firstn (j - i) (skipn i t).

End Text.

(** ** Regular expressions

    The ECMAScript regular expressions of the sources, without the [u] and
    [y] flags: syntax tree, parser of the pattern source and backtracking
    matcher.  The matcher lists the end positions of the matches of a
    pattern at a start position in the order in which ECMAScript's
    backtracking tries them, so the head of the list is the match that
    [exec] reports. *)

Module Regex.
Import Text.

Inductive class_esc := Digit | Word | Space.

Inductive class_item :=
| ItemChar (c : N)
| ItemRange (lo hi : N)
| ItemEsc (e : class_esc) (negated : bool).

Inductive regex :=
| Empty
| Char (c : N)
| Dot
| Class (negated : bool) (items : list class_item)
| LineStart
| LineEnd
| WordBoundary (negated : bool)
| Lookahead (negated : bool) (r : regex)
| Group (r : regex)
| Seq (r1 r2 : regex)
| Alt (r1 r2 : regex)
| Repeat (r : regex) (min : nat) (max : option nat) (greedy : bool).

Record flags := {
  global : bool;
  ignoreCase : bool;
  multiline : bool;
  dotAll : bool
}.

(** *** Parsing a pattern source *)

(** A pattern either parses, or is malformed (the [SyntaxError] the RegExp
    constructor throws), or uses syntax this model leaves out
    (backreferences, named groups, lookbehind, [\x], [\u], [\c] and octal
    escapes). *)
Inductive presult (A : Type) :=
| POk (a : A) (rest : list N)
| PSyntaxError (msg : string)
| PUnsupported (what : string).
Arguments POk {A} a rest.
Arguments PSyntaxError {A} msg.
Arguments PUnsupported {A} what.

Definition pbind {A B} (p : presult A) (k : A -> list N -> presult B)
  : presult B :=
  match p with
  | POk a rest => k a rest
  | PSyntaxError m => PSyntaxError m
  | PUnsupported m => PUnsupported m
  end.

Definition eqc (c : N) (a : ascii) : bool := c =? code a.

Fixpoint digits_value (acc : nat) (s : list N) : nat * list N :=
  match s with
  | c :: s' =>
    if is_digit c then digits_value (acc * 10 + N.to_nat (c - 48))%nat s'
    else (acc, s)
  | [] => (acc, [])
  end.

Definition parse_digits (s : list N) : option (nat * list N) :=
  match s with
  | c :: _ => if is_digit c then Some (digits_value 0 s) else None
  | [] => None
  end.

(** The text after an opening brace, when it completes a quantifier
    [{n}], [{n,}] or [{n,m}]. *)
Definition parse_braces (s : list N) : option (nat * option nat * list N) :=
  match parse_digits s with
  | Some (lo, c :: s2) =>
    if eqc c "}" then Some (lo, Some lo, s2)
    else if eqc c "," then
      match s2 with
      | d :: s3 =>
        if eqc d "}" then Some (lo, None, s3)
        else
          match parse_digits s2 with
          | Some (hi, e :: s4) =>
            if eqc e "}" then Some (lo, Some hi, s4) else None
          | _ => None
          end
      | [] => None
      end
    else None
  | _ => None
  end.

Definition lazy_suffix (s : list N) : bool * list N :=
  match s with
  | c :: s' => if eqc c "?" then (false, s') else (true, s)
  | [] => (true, [])
  end.

Definition out_of_order (lo : nat) (hi : option nat) : bool :=
  match hi with
  | Some h => (h <? lo)%nat
  | None => false
  end.

(** The optional quantifier after an atom.  A brace that does not complete
    a quantifier is an ordinary character of the next term. *)
Definition parse_quantifier (atom : regex) (s : list N) : presult regex :=
  match s with
  | c :: s' =>
    if eqc c "*" then
      let '(g, r) := lazy_suffix s' in POk (Repeat atom 0 None g) r
    else if eqc c "+" then
      let '(g, r) := lazy_suffix s' in POk (Repeat atom 1 None g) r
    else if eqc c "?" then
      let '(g, r) := lazy_suffix s' in POk (Repeat atom 0 (Some 1%nat) g) r
    else if eqc c "{" then
      match parse_braces s' with
      | Some (lo, hi, s'') =>
        if out_of_order lo hi
        then PSyntaxError "numbers out of order in {} quantifier"
        else let '(g, r) := lazy_suffix s'' in POk (Repeat atom lo hi g) r
      | None => POk atom s
      end
    else POk atom s
  | [] => POk atom []
  end.

Definition class_escape (e : N) : option (class_esc * bool) :=
  if eqc e "d" then Some (Digit, false)
  else if eqc e "D" then Some (Digit, true)
  else if eqc e "w" then Some (Word, false)
  else if eqc e "W" then Some (Word, true)
  else if eqc e "s" then Some (Space, false)
  else if eqc e "S" then Some (Space, true)
  else None.

Definition control_escape (e : N) : option N :=
  if eqc e "t" then Some 9
  else if eqc e "n" then Some 10
  else if eqc e "v" then Some 11
  else if eqc e "f" then Some 12
  else if eqc e "r" then Some 13
  else None.

Definition left_out (e : N) : bool :=
  eqc e "x" || eqc e "u" || eqc e "c" || eqc e "k".

Definition next_is_digit (s : list N) : bool :=
  match s with
  | c :: _ => is_digit c
  | [] => false
  end.

(** The character or class that an escape stands for; [in_class] tells
    whether it occurs between brackets, where [\b] is a backspace and a
    digit starts an octal escape (elsewhere a backreference). *)
Definition parse_escape (in_class : bool) (e : N) (s : list N)
  : presult class_item :=
  match class_escape e, control_escape e with
  | Some (k, neg), _ => POk (ItemEsc k neg) s
  | None, Some c => POk (ItemChar c) s
  | None, None =>
    if eqc e "0" then
      if next_is_digit s then PUnsupported "octal escape"
      else POk (ItemChar 0) s
    else if is_digit e then
      PUnsupported (if in_class then "octal escape" else "backreference")
    else if left_out e then PUnsupported "escape sequence"
    else if in_class && eqc e "b" then POk (ItemChar 8) s
    else POk (ItemChar e) s
  end.

Definition parse_class_atom (s : list N) : presult class_item :=
  match s with
  | [] => PSyntaxError "Unterminated character class"
  | c :: s' =>
    if eqc c "\" then
      match s' with
      | [] => PSyntaxError "\ at end of pattern"
      | e :: s'' => parse_escape true e s''
      end
    else POk (ItemChar c) s'
  end.

(** The items of a class up to and including the closing bracket. *)
Fixpoint parse_class_items (fuel : nat) (s : list N)
  : presult (list class_item) :=
  match fuel with
  | O => PUnsupported "pattern too long"
  | S f =>
    match s with
    | [] => PSyntaxError "Unterminated character class"
    | c :: s' =>
      if eqc c "]" then POk [] s'
      else
        pbind (parse_class_atom s) (fun a s1 =>
          let single :=
            pbind (parse_class_items f s1) (fun l s2 => POk (a :: l) s2) in
          match s1 with
          | d :: (e :: _) as s2 =>
            if eqc d "-" && negb (eqc e "]") then
              pbind (parse_class_atom s2) (fun b s3 =>
                match a, b with
                | ItemChar lo, ItemChar hi =>
                  if hi <? lo
                  then PSyntaxError "Range out of order in character class"
                  else pbind (parse_class_items f s3)
                         (fun l s4 => POk (ItemRange lo hi :: l) s4)
                | _, _ =>
                  pbind (parse_class_items f s3)
                    (fun l s4 => POk (a :: ItemChar (code "-") :: b :: l) s4)
                end)
            else single
          | _ => single
          end)
    end
  end.

Inductive group_kind := Capturing | NonCapturing | Look (negated : bool).

Definition parse_group_kind (s : list N) : presult group_kind :=
  match s with
  | c :: d :: s' =>
    if eqc c "?" then
      if eqc d ":" then POk NonCapturing s'
      else if eqc d "=" then POk (Look false) s'
      else if eqc d "!" then POk (Look true) s'
      else if eqc d "<" then PUnsupported "lookbehind or named group"
      else PSyntaxError "Invalid group"
    else POk Capturing s
  | [c] => if eqc c "?" then PSyntaxError "Invalid group" else POk Capturing s
  | [] => POk Capturing s
  end.

Definition wrap_group (k : group_kind) (r : regex) : regex :=
  match k with
  | Capturing | NonCapturing => Group r
  | Look neg => Lookahead neg r
  end.

Definition item_regex (a : class_item) : regex :=
  match a with
  | ItemChar c => Char c
  | _ => Class false [a]
  end.

Fixpoint parse_disjunction (fuel : nat) (s : list N) : presult regex :=
  match fuel with
  | O => PUnsupported "pattern too long"
  | S f =>
    pbind (parse_alternative f s) (fun r s1 =>
      match s1 with
      | c :: s2 =>
        if eqc c "|"
        then pbind (parse_disjunction f s2) (fun r2 s3 => POk (Alt r r2) s3)
        else POk r s1
      | [] => POk r []
      end)
  end
with parse_alternative (fuel : nat) (s : list N) : presult regex :=
  match fuel with
  | O => PUnsupported "pattern too long"
  | S f =>
    match s with
    | [] => POk Empty []
    | c :: _ =>
      if eqc c "|" || eqc c ")" then POk Empty s
      else
        pbind (parse_term f s) (fun t s1 =>
          pbind (parse_alternative f s1) (fun r s2 => POk (Seq t r) s2))
    end
  end
with parse_term (fuel : nat) (s : list N) : presult regex :=
  match fuel with
  | O => PUnsupported "pattern too long"
  | S f =>
    match s with
    | [] => POk Empty []
    | c :: s1 =>
      if eqc c "^" then POk LineStart s1
      else if eqc c "$" then POk LineEnd s1
      else if eqc c "*" || eqc c "+" || eqc c "?" then
        PSyntaxError "Nothing to repeat"
      else if eqc c "{" then
        match parse_braces s1 with
        | Some _ => PSyntaxError "Nothing to repeat"
        | None => parse_quantifier (Char c) s1
        end
      else if eqc c "." then parse_quantifier Dot s1
      else if eqc c "(" then
        pbind (parse_group_kind s1) (fun k s2 =>
          pbind (parse_disjunction f s2) (fun r s3 =>
            match s3 with
            | d :: s4 =>
              if eqc d ")" then parse_quantifier (wrap_group k r) s4
              else PSyntaxError "Unterminated group"
            | [] => PSyntaxError "Unterminated group"
            end))
      else if eqc c "[" then
        let '(neg, s2) :=
          match s1 with
          | d :: s2 => if eqc d "^" then (true, s2) else (false, s1)
          | [] => (false, s1)
          end in
        pbind (parse_class_items (S (length s2)) s2) (fun items s3 =>
          parse_quantifier (Class neg items) s3)
      else if eqc c "\" then
        match s1 with
        | [] => PSyntaxError "\ at end of pattern"
        | e :: s2 =>
          if eqc e "b" then POk (WordBoundary false) s2
          else if eqc e "B" then POk (WordBoundary true) s2
          else pbind (parse_escape false e s2) (fun a s3 =>
                 parse_quantifier (item_regex a) s3)
        end
      else parse_quantifier (Char c) s1
    end
  end.

(** The whole pattern: a disjunction that uses up the source.  What
    [parse_disjunction] leaves unread can only start with a closing
    parenthesis. *)
Definition parse_pattern (s : list N) : presult regex :=
  match parse_disjunction (4 * length s + 4) s with
  | POk r [] => POk r []
  | POk _ (_ :: _) => PSyntaxError "Unmatched ')'"
  | e => e
  end.

Definition no_flags : flags :=
  {| global := false; ignoreCase := false; multiline := false;
     dotAll := false |}.

(** The flags [g], [i], [m] and [s], each at most once. *)
Fixpoint parse_flags (acc : flags) (s : list N) : presult flags :=
  match s with
  | [] => POk acc []
  | c :: s' =>
    if eqc c "g" then
      if global acc then PSyntaxError "Invalid flags"
      else parse_flags {| global := true; ignoreCase := ignoreCase acc;
                          multiline := multiline acc; dotAll := dotAll acc |} s'
    else if eqc c "i" then
      if ignoreCase acc then PSyntaxError "Invalid flags"
      else parse_flags {| global := global acc; ignoreCase := true;
                          multiline := multiline acc; dotAll := dotAll acc |} s'
    else if eqc c "m" then
      if multiline acc then PSyntaxError "Invalid flags"
      else parse_flags {| global := global acc; ignoreCase := ignoreCase acc;
                          multiline := true; dotAll := dotAll acc |} s'
    else if eqc c "s" then
      if dotAll acc then PSyntaxError "Invalid flags"
      else parse_flags {| global := global acc; ignoreCase := ignoreCase acc;
                          multiline := multiline acc; dotAll := true |} s'
    else if eqc c "u" || eqc c "y" || eqc c "d" || eqc c "v" then
      PUnsupported "flag"
    else PSyntaxError "Invalid flags"
  end.

(** [new RegExp(source, flags)] on strings. *)
Definition compile (source fl : string) : presult (regex * flags) :=
  pbind (parse_flags no_flags (utf16 fl)) (fun f _ =>
    pbind (parse_pattern (utf16 source)) (fun r _ => POk (r, f) [])).

(** *** Matching *)

(** [Canonicalize] of ECMAScript for a pattern with the [i] flag and without
    the [u] flag: the upper-case form, when it is one code unit and does not
    turn a non-ASCII character into an ASCII one.  As for [to_lower], the
    code units above U+00FF are left unchanged by this model. *)
Definition upper_canon (c : N) : N :=
  if (97 <=? c) && (c <=? 122) then c - 32
  else if c =? 181 then 924
  else if (224 <=? c) && (c <=? 254) && negb (c =? 247) then c - 32
  else if c =? 255 then 376
  else c.

(** The code units that [upper_canon] sends to the canonical [cc]. *)
Definition upper_canon_preimage (cc : N) : list N :=
  if (65 <=? cc) && (cc <=? 90) then [cc; cc + 32]
  else if cc =? 924 then [cc; 181]
  else if (192 <=? cc) && (cc <=? 222) && negb (cc =? 215) then [cc; cc + 32]
  else if cc =? 376 then [cc; 255]
  else [cc].

Definition esc_mem (e : class_esc) (c : N) : bool :=
  match e with
  | Digit => is_digit c
  | Word => is_word c
  | Space => is_space c
  end.

Definition item_mem (c : N) (a : class_item) : bool :=
  match a with
  | ItemChar x => c =? x
  | ItemRange lo hi => (lo <=? c) && (c <=? hi)
  | ItemEsc e neg => xorb neg (esc_mem e c)
  end.

Definition dec_max (max : option nat) : option nat :=
  match max with
  | Some k => Some (Nat.pred k)
  | None => None
  end.

(** The iterations of a quantified atom whose matches from a position are
    listed by [step].  The first [min] iterations are mandatory; a further
    iteration that matches the empty string is dropped, as in ECMAScript's
    RepeatMatcher.  A greedy quantifier tries one more iteration before it
    tries to stop, a lazy one the other way round. *)
Fixpoint rep (step : nat -> list nat) (fuel min : nat) (max : option nat)
    (greedy : bool) (i : nat) : list nat :=
  match fuel with
  | O => []
  | S fuel' =>
    match max with
    | Some O => [i]
    | _ =>
      match min with
      | S min' => flat_map (rep step fuel' min' (dec_max max) greedy) (step i)
      | O =>
        let more :=
          flat_map (rep step fuel' O (dec_max max) greedy)
                   (filter (fun j => negb (j =? i)%nat) (step i)) in
        if greedy then more ++ [i] else i :: more
      end
    end
  end.

Section Matcher.
Variable fl : flags.
Variable input : list N.

Definition canon (c : N) : N := if ignoreCase fl then upper_canon c else c.

Definition canon_preimage (cc : N) : list N :=
  if ignoreCase fl then upper_canon_preimage cc else [cc].

(** CharacterSetMatcher: some member of the set has the canonical form of
    the input character. *)
Definition class_mem (items : list class_item) (c : N) : bool :=
  existsb (fun x => existsb (item_mem x) items) (canon_preimage (canon c)).

Definition step_char (p : N -> bool) (i : nat) : list nat :=
  match nth_error input i with
  | Some c => if p c then [S i] else []
  | None => []
  end.

Definition char_before (i : nat) : option N :=
  match i with
  | O => None
  | S j => nth_error input j
  end.

Definition holds (p : N -> bool) (c : option N) : bool :=
  match c with
  | Some x => p x
  | None => false
  end.

Definition at_line_start (i : nat) : bool :=
  (i =? 0)%nat || (multiline fl && holds is_line_terminator (char_before i)).

Definition at_line_end (i : nat) : bool :=
  (i =? length input)%nat
  || (multiline fl && holds is_line_terminator (nth_error input i)).

Definition at_word_boundary (i : nat) : bool :=
  xorb (holds is_word (char_before i)) (holds is_word (nth_error input i)).

Definition guard (b : bool) (i : nat) : list nat := if b then [i] else [].

Definition nonempty (l : list nat) : bool :=
  match l with
  | [] => false
  | _ :: _ => true
  end.

(** The end positions of the matches of [r] that start at [i], in
    backtracking order. *)
Fixpoint ends (r : regex) (i : nat) : list nat :=
  match r with
  | Empty => [i]
  | Char c => step_char (fun x => canon x =? canon c) i
  | Dot => step_char (fun x => dotAll fl || negb (is_line_terminator x)) i
  | Class neg items => step_char (fun x => xorb neg (class_mem items x)) i
  | LineStart => guard (at_line_start i) i
  | LineEnd => guard (at_line_end i) i
  | WordBoundary neg => guard (xorb neg (at_word_boundary i)) i
  | Lookahead neg r' => guard (xorb neg (nonempty (ends r' i))) i
  | Group r' => ends r' i
  | Seq r1 r2 => flat_map (ends r2) (ends r1 i)
  | Alt r1 r2 => ends r1 i ++ ends r2 i
  | Repeat r' min max greedy =>
    rep (ends r') (S (min + length input)) min max greedy i
  end.

(** The first position from [i] on at which [r] matches, with the end of
    the match there: what [exec] finds from [lastIndex = i]. *)
Fixpoint search (r : regex) (fuel i : nat) : option (nat * nat) :=
  match fuel with
  | O => None
  | S f =>
    match ends r i with
    | e :: _ => Some (i, e)
    | [] => search r f (S i)
    end
  end.

Definition exec_from (r : regex) (i : nat) : option (nat * nat) :=
  search r (S (length input) - i) i.

(** All matches from left to right, as [String.prototype.match] collects
    them for a global pattern; after an empty match the scan moves on by
    one code unit. *)
Fixpoint scan (r : regex) (fuel i : nat) : list (list N) :=
  match fuel with
  | O => []
  | S f =>
    match exec_from r i with
    | Some (b, e) =>
      slice input b e :: scan r f (if (e =? b)%nat then S e else e)
    | None => []
    end
  end.

Definition scan_all (r : regex) : list (list N) :=
  scan r (S (length input)) 0.

End Matcher.

(** The code units of [input] from [i] up to [j] are there and satisfy
    [p]. *)
Definition span (input : list N) (p : N -> bool) (i j : nat) : Prop :=
  (i <= j)%nat
  /\ forall k, (i <= k < j)%nat -> exists c, input !! k = Some c /\ p c = true.

(** [new RegExp(source, flags).test(text)] for a pattern that is not global
    (or whose [lastIndex] is 0).  A pattern that does not compile matches
    nothing here; the patterns of the sources all compile. *)
Definition test (source fl : string) (text : list N) : bool :=
  match compile source fl with
  | POk (r, f) _ => bool_decide (is_Some (exec_from f text r 0))
  | _ => false
  end.

(** [text.match(new RegExp(source, flags))] for a global pattern: the list
    of the matched substrings. *)
Definition match_all (source fl : string) (text : list N) : list (list N) :=
  match compile source fl with
  | POk (r, f) _ => scan_all f text r
  | _ => []
  end.

End Regex.

(** ** JavaScript values

    The plain data a configuration module or a JSON file holds.  String
    values are sequences of code units; property names are written as in the
    source. *)

Module Js.
Import Text.

Inductive value :=
| Undefined
| Null
| Bool (b : bool)
| Num (x : float)
| Str (s : list N)
| RegExp (source flags : string)
| Arr (elems : list value)
| Obj (props : list (string * value)).

(** A string literal of the source as a value. *)
Definition str (s : string) : value := Str (utf16 s).

(** The result of an evaluation that may throw; an exception carries the
    [message] of its [Error] object. *)
Inductive result (A : Type) :=
| Ok (a : A)
| Throw (message : list N).
Arguments Ok {A} a.
Arguments Throw {A} message.

Definition is_nan (x : float) : bool := negb (PrimFloat.eqb x x).

(** ToBoolean. *)
Definition truthy (v : value) : bool :=
  match v with
  | Undefined | Null => false
  | Bool b => b
  | Num x => negb (PrimFloat.eqb x 0) && negb (is_nan x)
  | Str s => negb (bool_decide (s = []))
  | RegExp _ _ | Arr _ | Obj _ => true
  end.

(** [typeof v === 'number' && v > 0]. *)
Definition positive_number (v : value) : bool :=
  match v with
  | Num x => PrimFloat.ltb 0 x
  | _ => false
  end.

Definition is_array (v : value) : bool :=
  match v with
  | Arr _ => true
  | _ => false
  end.

(** [typeof v === 'object'], which also holds of [null]. *)
Definition typeof_object (v : value) : bool :=
  match v with
  | Null | RegExp _ _ | Arr _ | Obj _ => true
  | _ => false
  end.

Definition of_nat (n : nat) : value :=
  Num (PrimFloat.of_uint63 (Uint63.of_Z (Z.of_nat n))).

(** The array index that a property name denotes: its canonical decimal
    form. *)
Definition index_of_key (k : string) : option nat :=
  match Regex.parse_digits (bytes k) with
  | Some (n, []) => if String.eqb (pretty n) k then Some n else None
  | _ => None
  end.

(** The value a property list gives to a name: a later entry overrides an
    earlier one, as in an object literal and in [JSON.parse]. *)
Fixpoint lookup_last (props : list (string * value)) (k : string)
  : option value :=
  match props with
  | [] => None
  | (k', v) :: rest =>
    match lookup_last rest k with
    | Some v' => Some v'
    | None => if String.eqb k' k then Some v else None
    end
  end.

Fixpoint insert_sorted (x : nat * string) (l : list (nat * string))
  : list (nat * string) :=
  match l with
  | [] => [x]
  | y :: l' => if (fst x <=? fst y)%nat then x :: l else y :: insert_sorted x l'
  end.

Definition sort_indices (l : list (nat * string)) : list (nat * string) :=
  foldr insert_sorted [] l.

Fixpoint dedup_keys (seen : list string) (l : list string) : list string :=
  match l with
  | [] => []
  | k :: l' =>
    if existsb (String.eqb k) seen then dedup_keys seen l'
    else k :: dedup_keys (k :: seen) l'
  end.

(** OrdinaryOwnPropertyKeys: the names that are array indices in ascending
    order, then the other names in the order of their creation. *)
Definition ordered_keys (props : list (string * value)) : list string :=
  let ks := dedup_keys [] (map fst props) in
  let idx :=
    omap (fun k => match index_of_key k with
                   | Some n => Some (n, k)
                   | None => None
                   end) ks in
  let names :=
    filter (fun k => bool_decide (index_of_key k = None)) ks in
  map snd (sort_indices idx) ++ names.

Fixpoint indexed {A} (i : nat) (l : list A) : list (string * A) :=
  match l with
  | [] => []
  | x :: l' => (pretty i, x) :: indexed (S i) l'
  end.

(** The own enumerable properties of a value, in [Object.keys] order: what
    [Object.keys] lists and what a spread copies. *)
Definition own_props (v : value) : list (string * value) :=
  match v with
  | Obj props =>
    omap (fun k => match lookup_last props k with
                   | Some x => Some (k, x)
                   | None => None
                   end) (ordered_keys props)
  | Arr l => indexed 0 l
  | Str s => indexed 0 (map (fun c => Str [c]) s)
  | _ => []
  end.

Definition keys (v : value) : list string := map fst (own_props v).

Definition type_error (what : string) : list N :=
  utf16 ("Cannot read properties of " +:+ what).

(** Property access [v[k]] and [v.k], for own properties and [length];
    reading a property of [undefined] or [null] throws a [TypeError]. *)
Definition get (v : value) (k : string) : result value :=
  match v with
  | Undefined => Throw (type_error "undefined")
  | Null => Throw (type_error "null")
  | Obj props =>
    Ok (match lookup_last props k with Some x => x | None => Undefined end)
  | Arr l =>
    if String.eqb k "length" then Ok (of_nat (length l))
    else Ok (match index_of_key k with
             | Some n => nth n l Undefined
             | None => Undefined
             end)
  | Str s =>
    if String.eqb k "length" then Ok (of_nat (length s))
    else Ok (match index_of_key k with
             | Some n =>
               match nth_error s n with
               | Some c => Str [c]
               | None => Undefined
               end
             | None => Undefined
             end)
  | Bool _ | Num _ | RegExp _ _ => Ok Undefined
  end.

(** A path of property names from a value; [Undefined] where the path
    leaves the data. *)
Fixpoint at_path (v : value) (path : list string) : value :=
  match path with
  | [] => v
  | k :: path' =>
    match get v k with
    | Ok x => at_path x path'
    | Throw _ => Undefined
    end
  end.

(** [haystack.includes(needle)]. *)
Fixpoint is_prefix (p t : list N) : bool :=
  match p, t with
  | [], _ => true
  | a :: p', b :: t' => (a =? b) && is_prefix p' t'
  | _ :: _, [] => false
  end.

Fixpoint includes (haystack needle : list N) : bool :=
  is_prefix needle haystack
  || match haystack with
     | [] => false
     | _ :: rest => includes rest needle
     end.

(** [parseInt(s)] without a radix: leading white space, an optional sign,
    an optional [0x] prefix, then the longest run of digits of the radix.
    [None] is [NaN].  The result is given as the integer that the digits
    denote; the number JavaScript returns is the double nearest to it, which
    has the same sign. *)
Definition hex_digit (c : N) : option Z :=
  if is_digit c then Some (Z.of_N (c - 48))
  else if (97 <=? c) && (c <=? 102) then Some (Z.of_N (c - 87))
  else if (65 <=? c) && (c <=? 70) then Some (Z.of_N (c - 55))
  else None.

Definition dec_digit (c : N) : option Z :=
  if is_digit c then Some (Z.of_N (c - 48)) else None.

Fixpoint digits_in (digit : N -> option Z) (radix : Z) (acc : option Z)
    (s : list N) : option Z :=
  match s with
  | [] => acc
  | c :: s' =>
    match digit c with
    | Some d =>
      digits_in digit radix
        (Some (match acc with Some a => a * radix + d | None => d end)%Z) s'
    | None => acc
    end
  end.

Definition parseInt (s : list N) : option Z :=
  let s1 := drop_space s in
  let '(sign, s2) :=
    match s1 with
    | c :: s' =>
      if Regex.eqc c "-" then ((-1)%Z, s')
      else if Regex.eqc c "+" then (1%Z, s')
      else (1%Z, s1)
    | [] => (1%Z, s1)
    end in
  let magnitude :=
    match s2 with
    | z :: x :: s3 =>
      if Regex.eqc z "0" && (Regex.eqc x "x" || Regex.eqc x "X")
      then digits_in hex_digit 16 None s3
      else digits_in dec_digit 10 None s2
    | _ => digits_in dec_digit 10 None s2
    end in
  option_map (Z.mul sign) magnitude.

End Js.

(** ** config/medical-config.js

    The object the module exports.  Property order is the order of the
    source; a regular expression literal [/p/f] is [RegExp "p" "f"]; the
    three values read from [process.env] when the module is loaded are taken
    from the environment [env]. *)

Module MedicalConfig.
Import Text Js.

Local Open Scope float_scope.

Definition env_value (env : gmap string (list N)) (name : string) : value :=
  match env !! name with
  | Some s => Str s
  | None => Undefined
  end.

Definition fragments : value :=
  Arr [
    (* Basic intent starters *)
    RegExp "^(quiero|necesito|puedo|me|cual|como|donde|cuando)$" "i";
    RegExp "^(para|en|el|la|un|una|por)$" "i";
    (* Medical-specific fragments *)
    RegExp "^(turno|cita|consulta|precio|horario|ubicacion)$" "i";
    RegExp "^(cancelar|modificar|cambiar|reagendar)$" "i";
    RegExp "^(doctor|doctora|dr|dra)$" "i";
    (* Incomplete medical queries *)
    RegExp "^(me duele|tengo dolor|siento|me molesta)$" "i";
    RegExp "^(obra social|prepaga|osde|swiss|galeno)$" "i";
    RegExp "^(cuanto (cuesta|vale|sale))$" "i";
    (* Time/location fragments *)
    RegExp "^(mañana|tarde|noche|hoy|ayer)$" "i";
    RegExp "^(lunes|martes|miercoles|jueves|viernes|sabado|domingo)$" "i"
  ].

Definition complete : value :=
  Arr [
    (* Complete appointment requests *)
    RegExp "quiero (un turno|una cita|agendar) (para|en|el|la) .+" "i";
    RegExp "necesito (un turno|una cita) .+" "i";
    RegExp "puedo (agendar|solicitar) .+ (turno|cita)" "i";
    (* Complete information requests *)
    RegExp "(cual es|cuanto (cuesta|vale|sale)) (el precio|la tarifa|el costo) .+" "i";
    RegExp "(donde (esta|queda)|cual es la direccion|ubicacion del) consultorio" "i";
    RegExp "(que|cuales) (horarios|dias) (atiende|trabaja|tiene)" "i";
    RegExp "(acepta|atiende|toma) (obra social|prepaga|osde|swiss medical)" "i";
    (* Complete modifications *)
    RegExp "necesito (cancelar|modificar|cambiar|reagendar) (mi|el) (turno|cita) .+" "i";
    RegExp "(quiero|necesito) cambiar (mi turno|la fecha|el horario) .+" "i";
    (* Complete medical queries *)
    RegExp "me duele .+ (desde|hace|por)" "i";
    RegExp "tengo (dolor|molestia|problema) (en|de) .+" "i";
    (* Greetings/farewells (always complete) *)
    RegExp "^(hola|buenos dias|buenas tardes|buenas noches)( doctor| doctora)?$" "i";
    RegExp "^(gracias|muchas gracias|perfecto|excelente|listo|ok)$" "i";
    RegExp "^(hasta luego|nos vemos|que tenga buen dia|chau|adios)$" "i";
    (* Questions (grammatically complete) *)
    RegExp ".+\?$" ""
  ].

Definition intents : value :=
  Obj [
    ("appointment", RegExp "turno|cita|agendar|reservar|solicitar|pedir" "i");
    ("cancellation", RegExp "cancelar|anular|eliminar|quitar" "i");
    ("modification", RegExp "cambiar|modificar|reagendar|mover|reprogramar" "i");
    ("information", RegExp "precio|costo|tarifa|horario|ubicacion|direccion|obras? social|prepaga" "i");
    ("medical_query", RegExp "dolor|duele|molestia|sintoma|enferm|salud|medicina" "i");
    ("greeting", RegExp "hola|buenos|buenas|buen dia" "i");
    ("farewell", RegExp "gracias|chau|hasta luego|adios|nos vemos" "i");
    ("confirmation", RegExp "si|ok|perfecto|excelente|listo|bien|dale" "i");
    ("negation", RegExp "no|nunca|jamas|para nada|de ninguna manera" "i")
  ].

Definition entities : value :=
  Obj [
    ("dni", RegExp "\b\d{7,8}\b" "g");
    ("date", RegExp "\b\d{1,2}[\/\-]\d{1,2}[\/\-](\d{2}|\d{4})\b" "g");
    ("time", RegExp "\b\d{1,2}:\d{2}(\s*(am|pm))?\b" "gi");
    ("phone", RegExp "\b(\+54\s?)?(\d{2,4}[-\s]?)?\d{6,8}\b" "g");
    ("age", RegExp "\b\d{1,3}\s*(años?|year|years old)\b" "gi");
    (* Medical-specific entities *)
    ("insurance", RegExp "\b(osde|swiss medical|galeno|medicus|sancor|federada|ioma|pami)\b" "gi");
    ("specialties", RegExp "\b(clinica|cardiolog|dermatolog|ginecolog|pediatr|psicolog|traumatolog|oftalmolog)\w*" "gi");
    ("symptoms", RegExp "\b(dolor|fiebre|tos|dolor de cabeza|nauseas|mareo)\b" "gi")
  ].

Definition semantic : value :=
  Obj [
    ("patterns", Obj [
      ("fragments", fragments);
      ("complete", complete);
      ("intents", intents);
      ("entities", entities)
    ])
  ].

Definition timing : value :=
  Obj [
    ("profiles", Obj [
      ("aggressive", Obj [
        ("urgent", Num 1500);
        ("simple", Num 2000);
        ("complex", Num 3000);
        ("maxBuffer", Num 2)
      ]);
      ("balanced", Obj [
        ("urgent", Num 2000);
        ("simple", Num 3000);
        ("complex", Num 4000);
        ("maxBuffer", Num 3)
      ]);
      ("conservative", Obj [
        ("urgent", Num 3000);
        ("simple", Num 4000);
        ("complex", Num 6000);
        ("maxBuffer", Num 4)
      ])
    ])
  ].

Definition buffer : value :=
  Obj [
    ("ttl", Num 300);
    ("maxSize", Num 10);
    ("maxSizeKB", Num 50);
    ("cleanupInterval", Num 60);
    ("slidingTTL", Bool true)
  ].

Definition circuitBreaker : value :=
  Obj [
    ("redis", Obj [
      ("threshold", Num 3);
      ("timeout", Num 30000);
      ("resetTimeout", Num 60000)
    ]);
    ("ml", Obj [
      ("threshold", Num 2);
      ("timeout", Num 60000);
      ("resetTimeout", Num 300000)
    ])
  ].

Definition trigger (name condition severity : string) : value :=
  Obj [("name", str name); ("condition", str condition);
       ("severity", str severity)].

Definition metrics (env : gmap string (list N)) : value :=
  Obj [
    ("retention", Obj [
      ("realtime", Num 300);
      ("aggregated", Num 604800);
      ("alerts", Num 86400)
    ]);
    ("tracking", Obj [
      ("responseTime", Bool true);
      ("bufferUtilization", Bool true);
      ("intentDistribution", Bool true);
      ("entityExtraction", Bool true);
      ("fallbackUsage", Bool true);
      ("samplingRate", Num 1.0)
    ]);
    ("alerts", Obj [
      ("enabled", Bool true);
      ("webhook", env_value env "ALERT_WEBHOOK_URL");
      ("triggers", Arr [
        trigger "redis_down" "redis_failures > 3 in 3min" "critical";
        trigger "high_buffer_overflow" "buffer_overflow_rate > 5% in 5min"
                "warning";
        trigger "high_fallback_rate" "fallback_rate > 10% in 10min" "warning";
        trigger "slow_response_time" "avg_response_time > 10s in 5min"
                "warning"
      ])
    ])
  ].

Definition ml (env : gmap string (list N)) : value :=
  Obj [
    ("enabled", Bool false);
    ("fallbackToRegex", Bool true);
    ("endpoints", Obj [
      ("intent", env_value env "ML_INTENT_ENDPOINT");
      ("entity", env_value env "ML_ENTITY_ENDPOINT");
      ("sentiment", env_value env "ML_SENTIMENT_ENDPOINT")
    ]);
    ("timeouts", Obj [
      ("intent", Num 2000);
      ("entity", Num 1500);
      ("sentiment", Num 1000)
    ]);
    ("confidence", Obj [
      ("minThreshold", Num 0.7);
      ("fallbackThreshold", Num 0.5)
    ])
  ].

Definition security : value :=
  Obj [
    ("rateLimiting", Obj [
      ("enabled", Bool true);
      ("windowMs", Num 60000);
      ("maxRequests", Num 30);
      ("skipSuccessfulRequests", Bool false)
    ]);
    ("dataRetention", Obj [
      ("bufferData", Num 86400);
      ("metrics", Num 604800);
      ("logs", Num 259200)
    ])
  ].

Definition rule (min max : float) : value :=
  Obj [("type", str "number"); ("min", Num min); ("max", Num max)].

Definition validation : value :=
  Obj [
    ("required", Arr [str "redis.url"]);
    ("rules", Obj [
      ("timing.profiles.balanced.urgent", rule 1000 10000);
      ("buffer.ttl", rule 60 3600);
      ("buffer.maxSize", rule 1 20)
    ])
  ].

(** [module.exports]. *)
Definition exports (env : gmap string (list N)) : value :=
  Obj [
    ("name", str "Medical/Healthcare Configuration");
    ("version", str "1.0.0");
    ("description",
     str "Semantic patterns and timing optimized for medical consultations");
    ("semantic", semantic);
    ("timing", timing);
    ("buffer", buffer);
    ("circuitBreaker", circuitBreaker);
    ("metrics", metrics env);
    ("ml", ml env);
    ("security", security);
    ("validation", validation)
  ].

End MedicalConfig.

(** ** .env.example

    The assignments of the environment template, in file order (comment
    lines and the commented-out alternatives are not assignments). *)

Module EnvExample.
Import Text.

Definition assignments : list (string * string) := [
  (* Redis Configuration (REQUIRED) *)
  ("REDIS_URL", "redis://localhost:6379");
  ("REDIS_PASSWORD", "");
  ("REDIS_DB", "0");
  (* N8N Configuration *)
  ("N8N_HOST", "localhost");
  ("N8N_PORT", "5678");
  ("N8N_PROTOCOL", "http");
  (* Smart Buffer Configuration *)
  ("SMART_BUFFER_CONFIG", "medical");
  ("SMART_BUFFER_DEBUG", "false");
  (* Buffer Settings *)
  ("BUFFER_TTL", "300");
  ("BUFFER_MAX_SIZE", "3");
  ("BUFFER_MAX_SIZE_KB", "50");
  (* Timing Configuration (milliseconds) *)
  ("TIMING_URGENT", "2000");
  ("TIMING_SIMPLE", "3000");
  ("TIMING_COMPLEX", "4000");
  (* Circuit Breaker Settings *)
  ("CIRCUIT_BREAKER_REDIS_THRESHOLD", "3");
  ("CIRCUIT_BREAKER_REDIS_TIMEOUT", "30000");
  ("CIRCUIT_BREAKER_ML_THRESHOLD", "2");
  ("CIRCUIT_BREAKER_ML_TIMEOUT", "60000");
  (* ML Integration (Optional) *)
  ("ML_ENABLED", "false");
  ("ML_SERVICE_URL", "");
  ("ML_API_KEY", "");
  ("ML_MODEL_NAME", "consultorio-intent-v1");
  ("ML_TIMEOUT", "2000");
  (* Monitoring & Alerts *)
  ("METRICS_ENABLED", "true");
  ("METRICS_RETENTION_REALTIME", "300");
  ("METRICS_RETENTION_AGGREGATED", "604800");
  (* Alert Configuration *)
  ("ALERTS_ENABLED", "true");
  ("ALERT_WEBHOOK_URL", "");
  ("ALERT_SLACK_TOKEN", "");
  ("ALERT_TELEGRAM_BOT_TOKEN", "");
  ("ALERT_TELEGRAM_CHAT_ID", "");
  (* Dashboard Configuration *)
  ("DASHBOARD_ENABLED", "true");
  ("DASHBOARD_PORT", "3000");
  ("DASHBOARD_AUTH_REQUIRED", "false");
  ("DASHBOARD_USERNAME", "admin");
  ("DASHBOARD_PASSWORD", "");
  (* Development & Testing *)
  ("NODE_ENV", "development");
  ("LOG_LEVEL", "info");
  ("DEBUG_SEMANTIC_ANALYSIS", "false");
  ("DEBUG_TIMING_DECISIONS", "false");
  ("DEBUG_BUFFER_OPERATIONS", "false");
  (* Performance Tuning *)
  ("MAX_CONCURRENT_BUFFERS", "100");
  ("CLEANUP_INTERVAL", "60000");
  ("HEALTH_CHECK_INTERVAL", "30000");
  (* Security *)
  ("RATE_LIMIT_ENABLED", "true");
  ("RATE_LIMIT_WINDOW", "60000");
  ("RATE_LIMIT_MAX_REQUESTS", "100");
  (* Industry-specific Configuration *)
  ("INDUSTRY_CONFIG", "medical");
  (* Custom Configuration Path (if INDUSTRY_CONFIG=custom) *)
  ("CUSTOM_CONFIG_PATH", "./config/my-custom-config.js")
].

(** The environment a process gets when [.env] is a copy of the template
    and no variable is set otherwise (no name is assigned twice). *)
Definition environment : gmap string (list N) :=
  foldr (fun '(k, v) m => <[k := utf16 v]> m) ∅ assignments.

End EnvExample.

(** ** scripts/validate-config.js *)

Module Validator.
Import Text Js.

(** *** The world outside the script

    What the script observes of its runtime, of the file system and of the
    Redis server.  A path is the string the script forms; an exception is
    given by its message. *)

(** The Redis test after its setup: [require('ioredis')], the constructor
    and [connect], then [set], [get] and [del], then [setex] and [ttl], then
    [disconnect]; any of them may throw. *)
Inductive redis_ttl :=
| TtlThrows (message : list N)
| TtlReturns (hasTtl : Z) (disconnect : option (list N)).

Inductive redis_session :=
| SetupThrows (message : list N)
| GetReturns (testValue : option (list N)) (rest : redis_ttl).

Record World := {
  (** [process.cwd()] *)
  cwd : list N;
  (** [process.env], after [dotenv] has loaded [.env] *)
  env : gmap string (list N);
  (** [fs.existsSync] *)
  existsSync : list N -> bool;
  (** [require(path)]: the exported value, or the exception of loading *)
  require : list N -> result value;
  (** [JSON.parse(fs.readFileSync(path, 'utf8'))] *)
  readJSON : list N -> result value;
  (** [new RegExp(v)]: the message of the [SyntaxError] it throws, if any *)
  RegExp_error : value -> option (list N);
  redis : redis_session
}.

(** [path.join]: the segments joined by the separator (the normalisation of
    [.] and [..] segments is left out; paths only reach the oracles of the
    world and the messages). *)
Fixpoint path_join (parts : list (list N)) : list N :=
  match parts with
  | [] => utf16 "."
  | [p] => p
  | p :: rest => p ++ utf16 "/" ++ path_join rest
  end.

(** [process.env[name]] as a value. *)
Definition env_get (w : World) (name : string) : value :=
  match env w !! name with
  | Some s => Str s
  | None => Undefined
  end.

(** *** The validator object and its methods

    [this.errors], [this.warnings], [this.checks] and [this.passed].  The
    two counters count calls of [check], far below 2^53, and are natural
    numbers here. *)
Record state := {
  errors : list (list N);
  warnings : list (list N);
  checks : nat;
  passed : nat
}.

(** [constructor()]. *)
Definition init : state :=
  {| errors := []; warnings := []; checks := 0; passed := 0 |}.

(** A method body: it runs on the validator object, may change it, and
    returns or throws.  What [log] prints is not part of the model, so the
    success messages, which are only printed, do not appear. *)
Definition M (A : Type) : Type := state -> result A * state.

Definition ret {A} (a : A) : M A := fun s => (Ok a, s).

Definition bind {A B} (m : M A) (k : A -> M B) : M B :=
  fun s =>
    match m s with
    | (Ok a, s') => k a s'
    | (Throw e, s') => (Throw e, s')
    end.

Definition throw {A} (message : list N) : M A := fun s => (Throw message, s).

Definition lift {A} (r : result A) : M A := fun s => (r, s).

(** [try { body } catch (error) { handler(error.message) }]. *)
Definition try_catch {A} (body : M A) (handler : list N -> M A) : M A :=
  fun s =>
    match body s with
    | (Ok a, s') => (Ok a, s')
    | (Throw e, s') => handler e s'
    end.

Declare Scope validator_scope.
Delimit Scope validator_scope with validator.
Notation "x <- m ;; k" := (bind m (fun x => k))
  (at level 100, m at next level, right associativity) : validator_scope.
Notation "m ;; k" := (bind m (fun _ => k))
  (at level 100, right associativity) : validator_scope.
Local Open Scope validator_scope.

(** [array.forEach((x, index) => f(x, index))], from index [i] on. *)
Fixpoint forEach_from {A} (i : nat) (l : list A) (f : A -> nat -> M unit)
  : M unit :=
  match l with
  | [] => ret tt
  | x :: l' => f x i ;; forEach_from (S i) l' f
  end.

Definition forEach {A} (l : list A) (f : A -> M unit) : M unit :=
  forEach_from 0 l (fun x _ => f x).

Definition when (b : bool) (m : M unit) : M unit :=
  if b then m else ret tt.

Definition set_errors (l : list (list N)) (s : state) : state :=
  {| errors := l; warnings := warnings s; checks := checks s;
     passed := passed s |}.

Definition set_warnings (l : list (list N)) (s : state) : state :=
  {| errors := errors s; warnings := l; checks := checks s;
     passed := passed s |}.

Definition set_checks (n : nat) (s : state) : state :=
  {| errors := errors s; warnings := warnings s; checks := n;
     passed := passed s |}.

Definition set_passed (n : nat) (s : state) : state :=
  {| errors := errors s; warnings := warnings s; checks := checks s;
     passed := n |}.

(** [this.errors.push(message)]. *)
Definition push_error (message : list N) : M unit :=
  fun s => (Ok tt, set_errors (errors s ++ [message]) s).

(** [check(condition, successMsg, errorMsg, isWarning = false)], with the
    condition already converted to a boolean. *)
Definition check (condition : bool) (errorMsg : list N) (isWarning : bool)
  : M bool :=
  fun s =>
    let s1 := set_checks (S (checks s)) s in
    if condition then (Ok true, set_passed (S (passed s1)) s1)
    else if isWarning then (Ok false, set_warnings (warnings s1 ++ [errorMsg]) s1)
    else (Ok false, set_errors (errors s1 ++ [errorMsg]) s1).

Definition redisUrlPattern : string * string := ("^redis:\/\/.*:\d+$", "").

Definition requiredVars : list string := ["REDIS_URL"; "INDUSTRY_CONFIG"].

Definition numericVars : list string :=
  ["BUFFER_TTL"; "TIMING_URGENT"; "TIMING_SIMPLE"; "TIMING_COMPLEX"].

(** [!isNaN(value) && value > 0] for [value = parseInt(text)]. *)
Definition valid_positive (text : list N) : bool :=
  match parseInt text with
  | Some z => (0 <? z)%Z
  | None => false
  end.

Definition envPath (w : World) : list N := path_join [cwd w; utf16 ".env"].

Definition validateEnvironment (w : World) : M unit :=
  check (existsSync w (envPath w))
        (utf16 ".env file is missing (copy from .env.example)") false ;;
  forEach requiredVars (fun varName =>
    check (truthy (env_get w varName))
          (utf16 varName ++ utf16 " is missing in .env file") false ;;
    ret tt) ;;
  match env w !! "REDIS_URL" with
  | Some url =>
    when (truthy (Str url))
      (check (Regex.test (fst redisUrlPattern) (snd redisUrlPattern) url)
             (utf16 "Redis URL format is invalid (should be redis://host:port)")
             true ;;
       ret tt)
  | None => ret tt
  end ;;
  forEach numericVars (fun varName =>
    match env w !! varName with
    | Some text =>
      when (truthy (Str text))
        (check (valid_positive text)
               (utf16 varName ++ utf16 " is not a valid positive number")
               true ;;
         ret tt)
    | None => ret tt
    end).

Definition validateRedisConnection (w : World) : M unit :=
  if negb (truthy (env_get w "REDIS_URL")) then
    check false (utf16 "Cannot test Redis - REDIS_URL not configured") false ;;
    ret tt
  else
    try_catch
      (match redis w with
       | SetupThrows e => throw e
       | GetReturns testValue rest =>
         check (bool_decide (testValue = Some (utf16 "validation")))
               (utf16 "Redis operations failed") false ;;
         match rest with
         | TtlThrows e => throw e
         | TtlReturns hasTtl disconnect =>
           check (0 <? hasTtl)%Z
                 (utf16 "Redis TTL functionality failed") false ;;
           match disconnect with
           | Some e => throw e
           | None => ret tt
           end
         end
       end)
      (fun message =>
         check false (utf16 "Redis connection failed: " ++ message) false ;;
         ret tt).

Definition requiredSections : list string :=
  ["semantic"; "timing"; "buffer"; "circuitBreaker"].

(** [a && b] where [b] may throw and only its truth value is used. *)
Definition and_then (a : value) (b : result value) : result bool :=
  if truthy a then
    match b with
    | Ok x => Ok (truthy x)
    | Throw e => Throw e
    end
  else Ok false.

(** [v.forEach(...)] and [v.map(...)] exist only on arrays. *)
Definition as_array (v : value) (method : string) : result (list value) :=
  match v with
  | Arr l => Ok l
  | Undefined => Throw (type_error "undefined")
  | Null => Throw (type_error "null")
  | _ => Throw (utf16 (method +:+ " is not a function"))
  end.

(** [`Invalid regex in fragments[${index}]: ${error.message}`]. *)
Definition invalid_fragment_message (index : nat) (message : list N)
  : list N :=
  utf16 "Invalid regex in fragments[" ++ utf16 (pretty index)
  ++ utf16 "]: " ++ message.

(** The loop over the fragment patterns: [new RegExp(pattern)] for each,
    and for one that throws, [validPatterns = false] and a pushed error. *)
Fixpoint compile_each (w : World) (index : nat) (items : list value)
    (validPatterns : bool) : M bool :=
  match items with
  | [] => ret validPatterns
  | pattern :: rest =>
    match RegExp_error w pattern with
    | None => compile_each w (S index) rest validPatterns
    | Some message =>
      push_error (invalid_fragment_message index message) ;;
      compile_each w (S index) rest false
    end
  end.

(** [process.env.INDUSTRY_CONFIG || 'medical']. *)
Definition industryConfig (w : World) : list N :=
  match env w !! "INDUSTRY_CONFIG" with
  | Some name => if truthy (Str name) then name else utf16 "medical"
  | None => utf16 "medical"
  end.

Definition configPath (w : World) : list N :=
  path_join [cwd w; utf16 "config"; industryConfig w ++ utf16 "-config.js"].

Definition validateConfiguration (w : World) : M unit :=
  check (existsSync w (configPath w))
        (utf16 "Configuration file not found: " ++ configPath w) false ;;
  if negb (existsSync w (configPath w)) then ret tt
  else
    try_catch
      (config <- lift (require w (configPath w)) ;;
       forEach requiredSections (fun section =>
         v <- lift (get config section) ;;
         check (truthy v)
               (utf16 "Configuration section '" ++ utf16 section
                ++ utf16 "' is missing") false ;;
         ret tt) ;;
       (* Validate semantic patterns *)
       semantic <- lift (get config "semantic") ;;
       has_patterns <- lift (and_then semantic (get semantic "patterns")) ;;
       when has_patterns
         (patterns <- lift (get semantic "patterns") ;;
          fragments <- lift (get patterns "fragments") ;;
          check (is_array fragments)
                (utf16 "Fragment patterns should be an array") false ;;
          complete <- lift (get patterns "complete") ;;
          check (is_array complete)
                (utf16 "Complete patterns should be an array") false ;;
          (* Test pattern compilation *)
          items <- lift (as_array fragments
                           "config.semantic.patterns.fragments.forEach") ;;
          validPatterns <- compile_each w 0 items true ;;
          check validPatterns
                (utf16 "Some fragment patterns have invalid regex syntax")
                false ;;
          ret tt) ;;
       (* Validate timing configuration *)
       timing <- lift (get config "timing") ;;
       has_profiles <- lift (and_then timing (get timing "profiles")) ;;
       when has_profiles
         (all_profiles <- lift (get timing "profiles") ;;
          let profiles := keys all_profiles in
          check (0 <? length profiles)%nat
                (utf16 "No timing profiles defined") false ;;
          forEach profiles (fun profileName =>
            profile <- lift (get all_profiles profileName) ;;
            forEach ["urgent"; "simple"; "complex"] (fun timing_name =>
              t <- lift (get profile timing_name) ;;
              check (positive_number t)
                    (utf16 "Timing '" ++ utf16 timing_name
                     ++ utf16 "' in profile '" ++ utf16 profileName
                     ++ utf16 "' is invalid") false ;;
              ret tt))) ;;
       (* Validate buffer configuration *)
       buffer <- lift (get config "buffer") ;;
       when (truthy buffer)
         (ttl <- lift (get buffer "ttl") ;;
          check (positive_number ttl) (utf16 "Buffer TTL is invalid") false ;;
          maxSize <- lift (get buffer "maxSize") ;;
          check (positive_number maxSize)
                (utf16 "Buffer max size is invalid") false ;;
          ret tt))
      (fun message =>
         check false (utf16 "Configuration loading failed: " ++ message)
               false ;;
         ret tt).

Definition requiredNodes : list string :=
  ["Semantic Analyzer"; "Smart Orchestrator"; "Buffer Manager"].

(** [node.name || node.id]. *)
Definition node_name (node : value) : result value :=
  match get node "name" with
  | Ok name => if truthy name then Ok name else get node "id"
  | Throw e => Throw e
  end.

Fixpoint map_result {A B} (f : A -> result B) (l : list A) : result (list B) :=
  match l with
  | [] => Ok []
  | x :: l' =>
    match f x with
    | Ok y =>
      match map_result f l' with
      | Ok ys => Ok (y :: ys)
      | Throw e => Throw e
      end
    | Throw e => Throw e
    end
  end.

(** [nodeNames.some(name => name.toLowerCase().includes(needle))]: the
    names are tried in order up to the first hit; [toLowerCase] exists only
    on strings. *)
Fixpoint some_includes (nodeNames : list value) (needle : list N)
  : result bool :=
  match nodeNames with
  | [] => Ok false
  | name :: rest =>
    match name with
    | Str t =>
      if includes (lower t) needle then Ok true else some_includes rest needle
    | Undefined => Throw (type_error "undefined")
    | Null => Throw (type_error "null")
    | _ => Throw (utf16 "name.toLowerCase is not a function")
    end
  end.

Definition templatesDir (w : World) : list N :=
  path_join [cwd w; utf16 "templates"; utf16 "workflows"].

Definition coreTemplate (w : World) : list N :=
  path_join [templatesDir w; utf16 "buffer-core.json"].

Definition validateTemplates (w : World) : M unit :=
  check (existsSync w (templatesDir w))
        (utf16 "Templates directory not found") false ;;
  if negb (existsSync w (templatesDir w)) then ret tt
  else
    check (existsSync w (coreTemplate w))
          (utf16 "Core buffer template (buffer-core.json) not found") false ;;
    when (existsSync w (coreTemplate w))
      (try_catch
         (template <- lift (readJSON w (coreTemplate w)) ;;
          nodes <- lift (get template "nodes") ;;
          (* the success message reads [template.nodes.length] *)
          lift (get nodes "length") ;;
          check (truthy nodes && is_array nodes)
                (utf16 "Template structure is invalid") false ;;
          connections <- lift (get template "connections") ;;
          check (truthy connections && typeof_object connections)
                (utf16 "Template connections are missing") false ;;
          (* Check for key nodes *)
          items <- lift (as_array nodes "template.nodes.map") ;;
          nodeNames <- lift (map_result node_name items) ;;
          forEach requiredNodes (fun nodeName =>
            hasNode <- lift (some_includes nodeNames (lower (utf16 nodeName))) ;;
            check hasNode (utf16 "Missing required node: " ++ utf16 nodeName)
                  true ;;
            ret tt))
         (fun message =>
            check false (utf16 "Template parsing failed: " ++ message) false ;;
            ret tt)).

Definition requiredDeps : list string := ["ioredis"; "dotenv"].

Definition packagePath (w : World) : list N :=
  path_join [cwd w; utf16 "package.json"].

Definition nodeModulesPath (w : World) : list N :=
  path_join [cwd w; utf16 "node_modules"].

Definition validateDependencies (w : World) : M unit :=
  check (existsSync w (packagePath w)) (utf16 "package.json not found") false ;;
  if negb (existsSync w (packagePath w)) then ret tt
  else
    try_catch
      (pkg <- lift (readJSON w (packagePath w)) ;;
       (* Check required dependencies *)
       deps <- lift (get pkg "dependencies") ;;
       devDeps <- lift (get pkg "devDependencies") ;;
       let dependencies := Obj (own_props deps ++ own_props devDeps) in
       forEach requiredDeps (fun dep =>
         v <- lift (get dependencies dep) ;;
         check (truthy v) (utf16 "Missing dependency: " ++ utf16 dep) true ;;
         ret tt) ;;
       (* Check if node_modules exists *)
       check (existsSync w (nodeModulesPath w))
             (utf16 "Dependencies not installed (run: npm install)") true ;;
       ret tt)
      (fun message =>
         check false (utf16 "package.json parsing failed: " ++ message) false ;;
         ret tt).

(** [displaySummary()]: it prints the counts and the two lists and returns
    [false] when [this.errors.length > 0], else [true]. *)
Definition displaySummary : M bool :=
  fun s =>
    if (0 <? length (errors s))%nat then (Ok false, s) else (Ok true, s).

(** The five phases in the order of [main]. *)
Definition phases (w : World) : M unit :=
  validateEnvironment w ;;
  validateRedisConnection w ;;
  validateConfiguration w ;;
  validateTemplates w ;;
  validateDependencies w.

(** [main()], on a new validator: the exit status of the process together
    with the validator it leaves.  [process.exit(1)] ends the process with
    status 1, after a summary that is not valid and in the [catch] of
    [main]; otherwise [main] returns and the process ends with status 0. *)
Definition main (w : World) : Z * state :=
  match (phases w ;; displaySummary) init with
  | (Ok isValid, s) => (if negb isValid then 1%Z else 0%Z, s)
  | (Throw _, s) => (1%Z, s)
  end.

(** *** The RegExp constructor of the model

    [new RegExp(v)] copies a regular expression object and parses the source
    that any other value converts to.  This instance of the world's oracle
    covers strings, [undefined] (the empty pattern), [null] and booleans;
    a number converts to digits, a sign, a point and an exponent, which
    always parse. *)
Definition pattern_source (v : value) : option (list N) :=
  match v with
  | Str s => Some s
  | Undefined => Some []
  | Null => Some (utf16 "null")
  | Bool b => Some (utf16 (if b then "true" else "false"))
  | _ => None
  end.

Definition new_RegExp_error (v : value) : option (list N) :=
  match pattern_source v with
  | Some src =>
    match Regex.parse_pattern src with
    | Regex.PSyntaxError m =>
      Some (utf16 "Invalid regular expression: /" ++ src ++ utf16 "/: "
            ++ utf16 m)
    | _ => None
    end
  | None => None
  end.

(** The world [w] with another [RegExp] constructor. *)
Definition with_RegExp (w : World) (constructor : value -> option (list N))
  : World :=
  {| cwd := cwd w;
     env := env w;
     existsSync := existsSync w;
     require := require w;
     readJSON := readJSON w;
     RegExp_error := constructor;
     redis := redis w |}.

(** *** What the environment phase records

    The errors and the warnings of [validateEnvironment], stated apart from
    its code: an error for a missing [.env] file and for each required
    variable that is missing (unset or empty); a warning for a Redis URL
    of the wrong format and for each numeric variable that is set to
    something [parseInt] does not read as a positive number. *)
Definition missing_message (varName : string) : list N :=
  utf16 varName ++ utf16 " is missing in .env file".

Definition invalid_number_message (varName : string) : list N :=
  utf16 varName ++ utf16 " is not a valid positive number".

Definition invalid_url_message : list N :=
  utf16 "Redis URL format is invalid (should be redis://host:port)".

Definition missing (w : World) (varName : string) : bool :=
  match env w !! varName with
  | Some text => bool_decide (text = [])
  | None => true
  end.

Definition missing_errors (w : World) : list (list N) :=
  (if existsSync w (envPath w) then []
   else [utf16 ".env file is missing (copy from .env.example)"])
  ++ (if missing w "REDIS_URL" then [missing_message "REDIS_URL"] else [])
  ++ (if missing w "INDUSTRY_CONFIG"
      then [missing_message "INDUSTRY_CONFIG"] else []).

Definition invalid_number (w : World) (varName : string) : bool :=
  negb (missing w varName)
  && match env w !! varName with
     | Some text => negb (valid_positive text)
     | None => false
     end.

Definition invalid_url (w : World) : bool :=
  negb (missing w "REDIS_URL")
  && match env w !! "REDIS_URL" with
     | Some url => negb (Regex.test "^redis:\/\/.*:\d+$" "" url)
     | None => false
     end.

Definition format_warnings (w : World) : list (list N) :=
  (if invalid_url w then [invalid_url_message] else [])
  ++ flat_map (fun varName =>
                 if invalid_number w varName
                 then [invalid_number_message varName] else [])
              ["BUFFER_TTL"; "TIMING_URGENT"; "TIMING_SIMPLE"; "TIMING_COMPLEX"].

(** The invariant that [check] keeps. *)
Definition counted (s : state) : Prop :=
  checks s = (passed s + length (errors s) + length (warnings s))%nat.

End Validator.

(** ** The Semantic Analyzer *)

Module SemanticAnalyzer.
Import Text Js.

Inductive completeness := FRAGMENT | COMPLETE.

Inductive intent := Intent (name : string) | UNKNOWN.

(** [pattern.test(text)] for a pattern of the configuration. *)
Definition matches (text : list N) (pattern : value) : bool :=
  match pattern with
  | RegExp source fl => Regex.test source fl text
  | _ => false
  end.

(** The pattern is a regular expression that [Regex] compiles. *)
Definition compiles (pattern : value) : bool :=
  match pattern with
  | RegExp source fl =>
    match Regex.compile source fl with
    | Regex.POk _ _ => true
    | _ => false
    end
  | _ => false
  end.

Definition pattern_list (config : value) (set : string) : list value :=
  match at_path config ["semantic"; "patterns"; set] with
  | Arr l => l
  | _ => []
  end.

Definition pattern_mapping (config : value) (set : string)
  : list (string * value) :=
  own_props (at_path config ["semantic"; "patterns"; set]).

(** Modelled from the spec: the analyzer's source
    ([nodes/semantic-analyzer.js]) is missing; section 4.1, step 1:
    the text is trimmed and put in lower case for matching. *)
Definition normalize (text : list N) : list N := lower (trim text).

(** Modelled from the spec: the analyzer's source is missing; section 4.1,
    steps 2 and 3: the ordered [complete] patterns are tested first and the
    first match gives COMPLETE; else a match in [fragments] gives FRAGMENT;
    else the default is COMPLETE. *)
Definition classify_completeness (config : value) (text : list N)
  : completeness :=
  let t := normalize text in
  match find (matches t) (pattern_list config "complete") with
  | Some _ => COMPLETE
  | None =>
    match find (matches t) (pattern_list config "fragments") with
    | Some _ => FRAGMENT
    | None => COMPLETE
    end
  end.

(** Modelled from the spec: the analyzer's source is missing; section 4.1,
    step 4, evaluated over the [intents] mapping of the configuration in
    the order of its keys: the first intent whose pattern matches wins, and
    no match gives UNKNOWN. *)
Definition classify_intent (config : value) (text : list N) : intent :=
  let t := normalize text in
  match find (fun kp => matches t (snd kp)) (pattern_mapping config "intents")
  with
  | Some (name, _) => Intent name
  | None => UNKNOWN
  end.

(** Modelled from the spec: the fixed priority order of section 4.1,
    step 4. *)
Definition priority : list string :=
  ["appointment"; "cancellation"; "modification"; "information";
   "medical_query"; "greeting"; "farewell"; "confirmation"; "negation"].

(** Modelled from the spec: step 4 read by the priority order: the first
    intent of [priority] whose configured pattern matches. *)
Definition classify_by_priority (config : value) (text : list N) : intent :=
  let t := normalize text in
  let patterns := at_path config ["semantic"; "patterns"; "intents"] in
  match find (fun name => matches t (at_path patterns [name])) priority with
  | Some name => Intent name
  | None => UNKNOWN
  end.

Fixpoint dedup (l : list (list N)) : list (list N) :=
  match l with
  | [] => []
  | x :: l' =>
    x :: filter (fun y => negb (bool_decide (y = x))) (dedup l')
  end.

(** Modelled from the spec: the analyzer's source is missing; section 4.1,
    step 5: each entity kind scans the text with its own pattern and every
    match is added to the set of that kind. *)
Definition extract (text : list N) (pattern : value) : list (list N) :=
  match pattern with
  | RegExp source fl => dedup (Regex.match_all source fl text)
  | _ => []
  end.

Definition extract_entities (config : value) (text : list N)
  : list (string * list (list N)) :=
  map (fun kp => (fst kp, extract text (snd kp)))
      (pattern_mapping config "entities").

Definition entity_set (config : value) (text : list N) (kind : string)
  : list (list N) :=
  extract text (at_path config ["semantic"; "patterns"; "entities"; kind]).

End SemanticAnalyzer.

(** ** The order of the complete patterns *)

Module PatternOrder.
Import Text Js.

(** The three groups that the comments of the configuration make of the
    complete patterns, told apart by the shape of the pattern: the question
    pattern ends in an escaped question mark and the end anchor; a
    greeting or farewell shortcut is anchored at both ends, so it matches a
    whole message only; a full-sentence pattern is anchored at neither. *)
Inductive kind := FullSentence | Shortcut | QuestionMark.

Definition source (p : value) : list N :=
  match p with
  | RegExp src _ => utf16 src
  | _ => []
  end.

Definition starts_with (t : list N) (prefix : string) : bool :=
  is_prefix (utf16 prefix) t.

Definition ends_with (t : list N) (suffix : string) : bool :=
  is_prefix (rev (utf16 suffix)) (rev t).

Definition pattern_kind (p : value) : kind :=
  let src := source p in
  if ends_with src "\?$" then QuestionMark
  else if starts_with src "^" && ends_with src "$" then Shortcut
  else FullSentence.

Definition complete_patterns : list value :=
  match MedicalConfig.complete with
  | Arr l => l
  | _ => []
  end.

(** Every pattern of kind [a] is listed strictly before every pattern of
    kind [b]. *)
Definition listed_before (l : list value) (a b : kind) : Prop :=
  forall i j p q,
    l !! i = Some p -> l !! j = Some q ->
    pattern_kind p = a -> pattern_kind q = b -> (i < j)%nat.

End PatternOrder.

(** ** Looking for an urgency table in the configuration *)

Module UrgencyTable.
Import Text Js.

(** Modelled from the spec: the derivation table of section 4.1, step 6
    (the derivation itself belongs to the analyzer, whose source is
    missing). *)
Definition table : list (string * string) :=
  [("appointment", "URGENT"); ("cancellation", "URGENT");
   ("modification", "URGENT");
   ("information", "SIMPLE"); ("greeting", "SIMPLE"); ("farewell", "SIMPLE");
   ("confirmation", "SIMPLE"); ("negation", "SIMPLE");
   ("medical_query", "COMPLEX"); ("UNKNOWN", "COMPLEX")].



(** Every value inside a value, itself included. *)
Fixpoint subvalues (v : value) : list value :=
  v :: match v with
       | Arr l => flat_map subvalues l
       | Obj props =>
         (fix inside (ps : list (string * value)) : list value :=
            match ps with
            | [] => []
            | (_, x) :: ps' => subvalues x ++ inside ps'
            end) props
       | _ => []
       end.

(** Names are compared without regard to case. *)
Definition same_word (s : list N) (name : string) : bool :=
  bool_decide (lower s = lower (utf16 name)).

Definition names (v : value) (name : string) : bool :=
  match v with
  | Str s => same_word s name
  | Arr l =>
    existsb (fun x => match x with
                      | Str s => same_word s name
                      | _ => false
                      end) l
  | _ => false
  end.

(** The value [t] relates [a] to [b] as data: it is an object with a
    property named [a] whose value is the string [b] or a list that holds
    [b]. *)
Definition relates (t : value) (a b : string) : bool :=
  match t with
  | Obj _ =>
    existsb (fun kv => same_word (utf16 (fst kv)) a && names (snd kv) b)
            (own_props t)
  | _ => false
  end.

(** [t] gives the intent its class, in either direction. *)
Definition has_entry (t : value) (entry : string * string) : bool :=
  relates t (fst entry) (snd entry) || relates t (snd entry) (fst entry).

(** [t] is the derivation table: it has every entry for the named
    intents. *)
Definition is_table (t : value) : bool :=
  forallb (fun entry => String.eqb (fst entry) "UNKNOWN" || has_entry t entry)
          table.

Definition contains_table (config : value) : bool :=
  existsb is_table (subvalues config).





End UrgencyTable.

(** ** A project directory to run the validator in *)

Module Fixture.
Import Text Js Validator.

Definition root : list N := utf16 "/srv/n8n-smart-buffer".

(** A workflow template with the three key nodes. *)
Definition template : value :=
  Obj [
    ("name", str "Smart Buffer Core");
    ("nodes", Arr [
      Obj [("name", str "Semantic Analyzer"); ("type", str "n8n-nodes-base.code")];
      Obj [("name", str "Smart Orchestrator"); ("type", str "n8n-nodes-base.code")];
      Obj [("name", str "Buffer Manager"); ("type", str "n8n-nodes-base.redis")]
    ]);
    ("connections", Obj [])
  ].

Definition package : value :=
  Obj [
    ("name", str "n8n-smart-buffer");
    ("dependencies", Obj [("ioredis", str "^5.3.2"); ("dotenv", str "^16.3.1")])
  ].

(** A configuration with the sections of the medical one and the given
    pattern sets. *)
Definition config_with (fragments complete intents entities : value) : value :=
  Obj [
    ("semantic", Obj [
      ("patterns", Obj [
        ("fragments", fragments);
        ("complete", complete);
        ("intents", intents);
        ("entities", entities)
      ])
    ]);
    ("timing", MedicalConfig.timing);
    ("buffer", MedicalConfig.buffer);
    ("circuitBreaker", MedicalConfig.circuitBreaker)
  ].

(** A project in which everything is in place: [.env] is the template, the
    files exist, Redis answers, and [config/medical-config.js] exports
    [config]. *)
Definition project (environment : gmap string (list N)) (config : value)
  : World :=
  {| cwd := root;
     env := environment;
     existsSync := fun _ => true;
     require := fun path =>
       if bool_decide (path = utf16 "/srv/n8n-smart-buffer/config/medical-config.js")
       then Ok config
       else Throw (utf16 "Cannot find module");
     readJSON := fun path =>
       if bool_decide (path = utf16 "/srv/n8n-smart-buffer/templates/workflows/buffer-core.json")
       then Ok template
       else if bool_decide (path = utf16 "/srv/n8n-smart-buffer/package.json")
       then Ok package
       else Throw (utf16 "ENOENT: no such file or directory");
     RegExp_error := new_RegExp_error;
     redis := GetReturns (Some (utf16 "validation")) (TtlReturns 1 None) |}.

Definition medical_project : World :=
  project EnvExample.environment
          (MedicalConfig.exports EnvExample.environment).

(** The medical pattern sets with an unterminated group, written as a
    string, among the complete patterns, the intents and the entities. *)
Definition broken_complete : value :=
  Arr [RegExp "necesito (un turno|una cita) .+" "i"; str "(un turno"].

Definition broken_intents : value :=
  Obj [("appointment", str "turno|cita|(agendar");
       ("cancellation", RegExp "cancelar|anular|eliminar|quitar" "i")].

Definition broken_entities : value :=
  Obj [("dni", str "\b(\d{7,8}\b")].

Definition broken_elsewhere : World :=
  project EnvExample.environment
          (config_with MedicalConfig.fragments broken_complete
                       broken_intents broken_entities).

(** The medical pattern sets with the same slip in a fragment pattern. *)
Definition broken_fragments : value :=
  Arr [RegExp "^(para|en|el|la|un|una|por)$" "i"; str "^(turno|cita$"].

Definition broken_fragment_project : World :=
  project EnvExample.environment
          (config_with broken_fragments MedicalConfig.complete
                       MedicalConfig.intents MedicalConfig.entities).

(** A project whose [.env] has a Redis URL without a port and a buffer TTL
    that is not a number. *)
Definition sloppy_environment : gmap string (list N) :=
  <["REDIS_URL" := utf16 "redis://localhost"]>
    (<["BUFFER_TTL" := utf16 "five minutes"]> EnvExample.environment).

Definition sloppy_project : World :=
  project sloppy_environment (MedicalConfig.exports sloppy_environment).

(** A project whose [.env] lacks [REDIS_URL]. *)
Definition no_redis_project : World :=
  project (delete "REDIS_URL" EnvExample.environment)
          (MedicalConfig.exports EnvExample.environment).

(** A directory that holds nothing of the project. *)
Definition empty_directory : World :=
  {| cwd := root;
     env := ∅;
     existsSync := fun _ => false;
     require := fun _ => Throw (utf16 "Cannot find module");
     readJSON := fun _ => Throw (utf16 "ENOENT: no such file or directory");
     RegExp_error := new_RegExp_error;
     redis := SetupThrows (utf16 "connect ECONNREFUSED 127.0.0.1:6379") |}.

(** A workflow template that has lost its orchestrator and knows one node
    by its id only. *)
Definition partial_template : value :=
  Obj [
    ("nodes", Arr [
      Obj [("name", str "semantic analyzer v2")];
      Obj [("id", str "BUFFER MANAGER")]
    ]);
    ("connections", Obj [])
  ].

(** A package that lists [ioredis] for development only and [dotenv]
    nowhere. *)
Definition partial_package : value :=
  Obj [
    ("name", str "n8n-smart-buffer");
    ("dependencies", Obj [("express", str "^4.18.2")]);
    ("devDependencies", Obj [("ioredis", str "^5.3.2")])
  ].

(** The project [w] with the given core template and [package.json]. *)
Definition with_files (w : World) (template package : value) : World :=
  {| cwd := cwd w;
     env := env w;
     existsSync := existsSync w;
     require := require w;
     readJSON := fun path =>
       if bool_decide (path = coreTemplate w) then Ok template
       else if bool_decide (path = packagePath w) then Ok package
       else readJSON w path;
     RegExp_error := RegExp_error w;
     redis := redis w |}.

Definition partial_project : World :=
  with_files medical_project partial_template partial_package.

(** The project with [null] in both JSON files. *)
Definition null_files_project : World :=
  with_files medical_project Null Null.

(** The project with a core template whose [nodes] is a table keyed by
    name, not an array. *)
Definition keyed_template : value :=
  Obj [
    ("nodes", Obj [("Semantic Analyzer", Obj [("type", str "n8n-nodes-base.code")])])
  ].

Definition keyed_template_project : World :=
  with_files medical_project keyed_template package.

End Fixture.

(** ** What a run of a method does to the validator *)

Module Run.
Import Text Js Validator.

(** The method returns: it does not throw, whatever the validator it
    starts from. *)
Definition returns {A} (m : M A) : Prop :=
  forall s, exists a, fst (m s) = Ok a.

(** The method only adds to [this.errors]. *)
Definition grows {A} (m : M A) : Prop :=
  forall s, errors s `prefix_of` errors (snd (m s)).

(** The method leaves the message [e] in [this.errors], whether it returns
    or throws. *)
Definition records {A} (e : list N) (m : M A) : Prop :=
  forall s, e ∈ errors (snd (m s)).


End Run.

(** ** The exact outcome of a method *)

Module Outcome.
Import Text Js Validator.

(** The validator after [es] more errors, [ws] more warnings, [n] more
    checks and [p] more passed checks. *)
Definition after (s : state) (es ws : list (list N)) (n p : nat) : state :=
  {| errors := errors s ++ es;
     warnings := warnings s ++ ws;
     checks := checks s + n;
     passed := passed s + p |}.

(** From every validator the method ends with the result [r], having added
    exactly [es], [ws], [n] and [p]. *)
Definition runs {A} (m : M A) (r : result A) (es ws : list (list N))
    (n p : nat) : Prop :=
  forall s, m s = (r, after s es ws n p).

(** The method keeps a property of the validator. *)
Definition keeps {A} (I : state -> Prop) (m : M A) : Prop :=
  forall s, I s -> I (snd (m s)).

(** Every check ends in exactly one of the three lists or was passed,
    except that an error may have been pushed without a check. *)
Definition bounded (s : state) : Prop :=
  (passed s + length (warnings s) <= checks s)%nat
  /\ (checks s <= passed s + length (errors s) + length (warnings s))%nat.

(** The method adds at least one error when it returns, and removes none
    when it throws. *)
Definition fails_or_throws {A} (m : M A) : Prop :=
  forall s,
    exists l, errors (snd (m s)) = errors s ++ l
              /\ (forall a, fst (m s) = Ok a -> l <> []).

(** The method adds at least one error, however it ends. *)
Definition fails {A} (m : M A) : Prop :=
  forall s, exists l, errors (snd (m s)) = errors s ++ l /\ l <> [].

End Outcome.

(** * Properties *)

Import Text Js.

(** ** The configured patterns *)

Section Patterns.
Import SemanticAnalyzer.
Variable env : gmap string (list N).

Let config := MedicalConfig.exports env.

(** The pattern sets of the exported object are those of the source,
    whatever the environment. *)
Lemma pattern_list_complete :
  Arr (pattern_list config "complete") = MedicalConfig.complete.
Proof. reflexivity. Qed.

Lemma pattern_list_fragments :
  Arr (pattern_list config "fragments") = MedicalConfig.fragments.
Proof. reflexivity. Qed.

Lemma pattern_mapping_intents :
  Obj (pattern_mapping config "intents") = MedicalConfig.intents.
Proof. vm_compute. reflexivity. Qed.

Lemma pattern_mapping_entities :
  Obj (pattern_mapping config "entities") = MedicalConfig.entities.
Proof. vm_compute. reflexivity. Qed.

(** Every pattern of the four sets is well formed and inside the syntax
    that [Regex] covers, so [matches] and [extract] run the pattern they
    are given. *)
Lemma configured_patterns_compile :
  forallb compiles (pattern_list config "complete") = true
  /\ forallb compiles (pattern_list config "fragments") = true
  /\ forallb (fun kp => compiles (snd kp)) (pattern_mapping config "intents")
     = true
  /\ forallb (fun kp => compiles (snd kp)) (pattern_mapping config "entities")
     = true.
Proof. repeat split; vm_compute; reflexivity. Qed.

(** The fragment patterns do their work on the messages they list, and the
    classification follows section 4.1 on the other scenarios of the
    specification. *)
Example single_word_is_fragment :
  classify_completeness config (utf16 "quiero") = FRAGMENT
  /\ classify_completeness config (utf16 "  Mañana ") = FRAGMENT.
Proof. split; vm_compute; reflexivity. Qed.

Example greeting_is_complete :
  classify_completeness config (utf16 "Hola doctor") = COMPLETE.
Proof. vm_compute. reflexivity. Qed.

Example full_request_is_complete :
  find (matches (normalize (utf16 "Quiero un turno para mañana")))
       (pattern_list config "complete")
  = Some (RegExp "quiero (un turno|una cita|agendar) (para|en|el|la) .+" "i").
Proof. vm_compute. reflexivity. Qed.

(** C1 (evaluation at the failing input): the message "quiero un turno"
    matches none of the fifteen complete patterns and none of the ten
    fragment patterns of the medical configuration, so the classification
    of section 4.1 falls to its default and answers COMPLETE, not
    FRAGMENT. *)
Theorem quiero_un_turno_matches_no_fragment :
  let text := utf16 "quiero un turno" in
  length (pattern_list config "complete") = 15%nat
  /\ length (pattern_list config "fragments") = 10%nat
  /\ existsb (matches (normalize text)) (pattern_list config "complete")
     = false
  /\ existsb (matches (normalize text)) (pattern_list config "fragments")
     = false
  /\ classify_completeness config text = COMPLETE.
Proof. repeat split; vm_compute; reflexivity. Qed.

(** The date pattern finds the numeric dates it describes. *)
Example date_pattern_finds_numeric_dates :
  entity_set config (utf16 "turno el 12/05/2024 o el 3-6-24") "date"
  = [utf16 "12/05/2024"; utf16 "3-6-24"].
Proof. vm_compute. reflexivity. Qed.

(** C2 (evaluation at the failing input): over the aggregate text of
    Scenario A the configured date pattern, which asks for digits and
    separators, finds nothing: the date set is empty and does not hold
    "mañana"; no entity pattern of the configuration matches in that
    text. *)
Theorem scenario_A_date_set_is_empty :
  let text := utf16 "quiero un turno para mañana en la mañana" in
  at_path config ["semantic"; "patterns"; "entities"; "date"]
  = RegExp "\b\d{1,2}[\/\-]\d{1,2}[\/\-](\d{2}|\d{4})\b" "g"
  /\ entity_set config text "date" = []
  /\ ~ utf16 "mañana" ∈ entity_set config text "date"
  /\ entity_set config (normalize text) "date" = []
  /\ forallb (fun kv => bool_decide (snd kv = []))
             (extract_entities config text) = true.
Proof.
  repeat split; try (vm_compute; reflexivity).
  intros H. vm_compute in H. inversion H.
Qed.

(** The intent of the aggregate text of Scenario A. *)
Example scenario_A_intent :
  classify_intent config (utf16 "quiero un turno para mañana en la mañana")
  = Intent "appointment".
Proof. vm_compute. reflexivity. Qed.

Example cancellation_after_appointment :
  classify_intent config (utf16 "necesito cancelar mi turno")
  = Intent "appointment"
  /\ classify_intent config (utf16 "necesito cancelar") = Intent "cancellation".
Proof. split; vm_compute; reflexivity. Qed.

(** C5: the intents mapping of the medical configuration lists its keys
    in the priority order of the specification; the first match over the
    mapping is therefore the first match by priority, for every text, and
    the answer is UNKNOWN exactly when no intent pattern matches. *)
Theorem intents_follow_priority :
  map fst (pattern_mapping config "intents") = priority
  /\ (forall text,
        classify_intent config text = classify_by_priority config text)
  /\ (forall text,
        classify_intent config text = UNKNOWN
        <-> existsb (fun kp => matches (normalize text) (snd kp))
                    (pattern_mapping config "intents") = false).
Proof.
  assert (Hm : pattern_mapping config "intents"
               = match MedicalConfig.intents with Obj l => l | _ => [] end)
    by (vm_compute; reflexivity).
  split; [vm_compute; reflexivity|].
  split.
  - intros text. unfold classify_intent, classify_by_priority.
    rewrite Hm.
    replace (at_path config ["semantic"; "patterns"; "intents"])
      with MedicalConfig.intents by reflexivity.
    generalize (normalize text) as t; intros t.
    cbn [MedicalConfig.intents find snd priority].
    repeat match goal with
    | |- context [at_path MedicalConfig.intents [?k]] =>
      let v := eval vm_compute in (at_path MedicalConfig.intents [k]) in
      change (at_path MedicalConfig.intents [k]) with v
    end.
    repeat (match goal with
            | |- context [matches t ?p] => destruct (matches t p)
            end; [reflexivity|]).
    reflexivity.
  - intros text. unfold classify_intent.
    generalize (normalize text) as t; intros t. clear Hm.
    induction (pattern_mapping config "intents") as [|[k p] l IH]; cbn.
    + tauto.
    + destruct (matches t p); cbn; [split; discriminate | exact IH].
Qed.

End Patterns.

(** ** The order of the complete patterns *)

Section Order.
Import PatternOrder.

Lemma complete_kinds :
  map pattern_kind complete_patterns
  = replicate 11 FullSentence ++ replicate 3 Shortcut ++ [QuestionMark].
Proof. vm_compute. reflexivity. Qed.

(** The positions at which a list of kinds holds a given kind. *)
Ltac index_cases i H :=
  cbn in H;
  first [ discriminate H
        | destruct i as [|i];
          [ cbn in H; try discriminate H | index_cases i H ] ].

Lemma listed_before_kinds (l : list value) (a b : kind) :
  (forall i j, map pattern_kind l !! i = Some a ->
               map pattern_kind l !! j = Some b -> (i < j)%nat) ->
  listed_before l a b.
Proof.
  intros H i j p q Hi Hj Hp Hq. apply H.
  - rewrite list_lookup_fmap, Hi. cbn. congruence.
  - rewrite list_lookup_fmap, Hj. cbn. congruence.
Qed.

(** C4 (as stated, refuted): the question-mark pattern is not listed
    before the greeting and farewell shortcuts: it is the fifteenth
    pattern and the first shortcut is the twelfth. *)
Lemma question_pattern_not_before_shortcuts :
  complete_patterns !! 14%nat = Some (RegExp ".+\?$" "")
  /\ pattern_kind (RegExp ".+\?$" "") = QuestionMark
  /\ ~ listed_before complete_patterns QuestionMark Shortcut.
Proof.
  split; [reflexivity|]. split; [vm_compute; reflexivity|].
  intros H.
  specialize (H 14%nat 11%nat _ _ eq_refl eq_refl).
  assert (14 < 11)%nat by (apply H; vm_compute; reflexivity). lia.
Qed.

(** C4 (amended): in the ordered complete list the eleven full-sentence
    patterns come first, the three greeting and farewell shortcuts next
    and the question-mark pattern last: every full-sentence pattern is
    listed strictly before every shortcut, and every shortcut strictly
    before the question-mark pattern. *)
Theorem complete_patterns_order :
  map pattern_kind complete_patterns
  = replicate 11 FullSentence ++ replicate 3 Shortcut ++ [QuestionMark]
  /\ listed_before complete_patterns FullSentence Shortcut
  /\ listed_before complete_patterns Shortcut QuestionMark
  /\ listed_before complete_patterns FullSentence QuestionMark.
Proof.
  split; [exact complete_kinds|].
  repeat split; apply listed_before_kinds; rewrite complete_kinds;
    intros i j Hi Hj; index_cases i Hi; index_cases j Hj; lia.
Qed.

(** The order among the complete patterns does not change the answer:
    the classification only asks whether some pattern of the list
    matches. *)
Lemma complete_order_is_immaterial (t : list N) (l l' : list value) :
  l ≡ₚ l' ->
  (exists p, find (SemanticAnalyzer.matches t) l = Some p)
  <-> (exists p, find (SemanticAnalyzer.matches t) l' = Some p).
Proof.
  intros Hp.
  assert (Hfind : forall k : list value,
    (exists p, find (SemanticAnalyzer.matches t) k = Some p)
    <-> Exists (fun p => SemanticAnalyzer.matches t p = true) k).
  { induction k as [|x k IH]; cbn.
    - split; [intros [p Hn]; discriminate | intros H; inversion H].
    - destruct (SemanticAnalyzer.matches t x) eqn:Hx.
      + split; [intros _; left; exact Hx | eauto].
      + rewrite IH. split; [intros H; right; exact H|].
        intros H. inversion H; subst; [congruence | assumption]. }
  rewrite !Hfind. rewrite Hp. reflexivity.
Qed.

End Order.

(** ** The urgency classes in the configuration *)

Section Urgency.
Import UrgencyTable.

(** The predicate does find a table where there is one, keyed by intent
    or grouped by class. *)
Example table_keyed_by_intent_is_found :
  contains_table
    (Obj [("urgency", Obj [
       ("appointment", str "URGENT"); ("cancellation", str "URGENT");
       ("modification", str "URGENT"); ("information", str "SIMPLE");
       ("greeting", str "SIMPLE"); ("farewell", str "SIMPLE");
       ("confirmation", str "SIMPLE"); ("negation", str "SIMPLE");
       ("medical_query", str "COMPLEX")])]) = true.
Proof. vm_compute. reflexivity. Qed.

Example table_grouped_by_class_is_found :
  contains_table
    (Obj [("urgency", Obj [
       ("urgent", Arr [str "appointment"; str "cancellation";
                       str "modification"]);
       ("simple", Arr [str "information"; str "greeting"; str "farewell";
                       str "confirmation"; str "negation"]);
       ("complex", Arr [str "medical_query"])])]) = true.
Proof. vm_compute. reflexivity. Qed.



End Urgency.

(** ** The buffer defaults *)

(** C7: the medical configuration sets [buffer.ttl] to 300 and
    [buffer.slidingTTL] to [true], and the environment template assigns
    [BUFFER_TTL=300], which the validator reads as the positive number
    300. *)
Theorem buffer_ttl_defaults (env : gmap string (list N)) :
  at_path (MedicalConfig.exports env) ["buffer"; "ttl"] = Num 300
  /\ at_path (MedicalConfig.exports env) ["buffer"; "slidingTTL"] = Bool true
  /\ ("BUFFER_TTL", "300") ∈ EnvExample.assignments
  /\ EnvExample.environment !! "BUFFER_TTL" = Some (utf16 "300")
  /\ parseInt (utf16 "300") = Some 300%Z
  /\ Validator.valid_positive (utf16 "300") = true.
Proof.
  repeat split; try (vm_compute; reflexivity).
  unfold EnvExample.assignments. set_solver.
Qed.

(** ** The validator *)

Section ValidatorFacts.
Import Validator Run.
Local Open Scope validator_scope.

(** *** [check] *)

(** C9: a call of [check] adds one to [this.checks] and one to exactly
    one of [this.passed], [this.errors.length] and
    [this.warnings.length], by the condition and [isWarning]; so it keeps
    [checks == passed + errors.length + warnings.length]. *)
Theorem check_counts_once (condition : bool) (errorMsg : list N)
    (isWarning : bool) (s : state) :
  let s' := snd (check condition errorMsg isWarning s) in
  fst (check condition errorMsg isWarning s) = Ok condition
  /\ checks s' = S (checks s)
  /\ (if condition then
        passed s' = S (passed s)
        /\ errors s' = errors s /\ warnings s' = warnings s
      else if isWarning then
        passed s' = passed s
        /\ errors s' = errors s /\ warnings s' = warnings s ++ [errorMsg]
      else
        passed s' = passed s
        /\ errors s' = errors s ++ [errorMsg] /\ warnings s' = warnings s)
  /\ (counted s -> counted s').
Proof.
  unfold check, counted.
  destruct condition; [|destruct isWarning]; cbn;
    repeat split; rewrite ?length_app; cbn; lia.
Qed.

Lemma check_counts_once_witness :
  counted init
  /\ counted (snd (check false (utf16 "Buffer TTL is invalid") false init)).
Proof.
  split.
  - reflexivity.
  - apply (check_counts_once false (utf16 "Buffer TTL is invalid") false init).
    reflexivity.
Defined.

(** The loop over the fragment patterns writes to [this.errors] without
    [check], and the count no longer adds up after it. *)
Example direct_push_is_not_counted :
  let s := snd (main Fixture.broken_fragment_project) in
  checks s = 41%nat /\ passed s = 40%nat
  /\ length (errors s) = 2%nat /\ length (warnings s) = 0%nat.
Proof. vm_compute. repeat split. Qed.

End ValidatorFacts.

Section MonadFacts.
Import Validator Run.
Local Open Scope validator_scope.
Context {A B : Type}.

(** *** Methods that return *)

Lemma returns_ret (a : A) : returns (ret a).
Proof. intros s. exists a. reflexivity. Qed.

Lemma returns_bind (m : M A) (k : A -> M B) :
  returns m -> (forall a, returns (k a)) -> returns (bind m k).
Proof.
  intros Hm Hk s. unfold bind. destruct (Hm s) as [a Ha].
  destruct (m s) as [[a'|e] s']; cbn in Ha; [|discriminate].
  apply Hk.
Qed.

Lemma returns_try_catch (body : M A) (handler : list N -> M A) :
  (forall e, returns (handler e)) -> returns (try_catch body handler).
Proof.
  intros Hh s. unfold try_catch.
  destruct (body s) as [[a|e] s']; [exists a; reflexivity | apply Hh].
Qed.

(** *** Methods that only add errors *)

Lemma grows_ret (a : A) : grows (ret a).
Proof. intros s. reflexivity. Qed.

Lemma grows_throw (e : list N) : grows (@throw A e).
Proof. intros s. reflexivity. Qed.

Lemma grows_lift (r : result A) : grows (lift r).
Proof. intros s. reflexivity. Qed.

Lemma grows_bind (m : M A) (k : A -> M B) :
  grows m -> (forall a, grows (k a)) -> grows (bind m k).
Proof.
  intros Hm Hk s. unfold bind. specialize (Hm s).
  destruct (m s) as [[a|e] s']; cbn in *; [|exact Hm].
  etransitivity; [exact Hm | apply Hk].
Qed.

Lemma grows_try_catch (body : M A) (handler : list N -> M A) :
  grows body -> (forall e, grows (handler e)) ->
  grows (try_catch body handler).
Proof.
  intros Hb Hh s. unfold try_catch. specialize (Hb s).
  destruct (body s) as [[a|e] s']; cbn in *; [exact Hb|].
  etransitivity; [exact Hb | apply Hh].
Qed.

(** *** Methods that leave a given error *)

Lemma records_bind_l (e : list N) (m : M A) (k : A -> M B) :
  records e m -> (forall a, grows (k a)) -> records e (bind m k).
Proof.
  intros Hm Hk s. unfold bind. specialize (Hm s).
  destruct (m s) as [[a|x] s']; cbn in *; [|exact Hm].
  destruct (Hk a s') as [l Hl]. rewrite Hl. set_solver.
Qed.

Lemma records_bind_r (e : list N) (m : M A) (k : A -> M B) :
  returns m -> (forall a, records e (k a)) -> records e (bind m k).
Proof.
  intros Hm Hk s. unfold bind. destruct (Hm s) as [a Ha].
  destruct (m s) as [[a'|x] s']; cbn in Ha; [|discriminate].
  apply Hk.
Qed.

Lemma records_try_catch (e : list N) (body : M A)
    (handler : list N -> M A) :
  records e body -> (forall x, grows (handler x)) ->
  records e (try_catch body handler).
Proof.
  intros Hb Hh s. unfold try_catch. specialize (Hb s).
  destruct (body s) as [[a|x] s']; cbn in *; [exact Hb|].
  destruct (Hh x s') as [l Hl]. rewrite Hl. set_solver.
Qed.

End MonadFacts.

Section MethodFacts.
Import Validator Run.
Local Open Scope validator_scope.

Lemma returns_check c msg isWarning : returns (check c msg isWarning).
Proof.
  intros s. exists c. unfold check.
  destruct c; [|destruct isWarning]; reflexivity.
Qed.

Lemma returns_push_error msg : returns (push_error msg).
Proof. intros s. exists tt. reflexivity. Qed.

Lemma returns_when b (m : M unit) : returns m -> returns (when b m).
Proof. destruct b; [trivial | intros _; apply returns_ret]. Qed.

Lemma returns_forEach_from {A} (l : list A) (f : A -> nat -> M unit) i :
  (forall x j, returns (f x j)) -> returns (forEach_from i l f).
Proof.
  intros Hf. revert i.
  induction l as [|x l IH]; intros i; cbn.
  - apply returns_ret.
  - apply returns_bind; [apply Hf | intros _; apply IH].
Qed.

Lemma returns_forEach {A} (l : list A) (f : A -> M unit) :
  (forall x, returns (f x)) -> returns (forEach l f).
Proof. intros Hf. apply returns_forEach_from. intros x _. apply Hf. Qed.

Lemma grows_check c msg isWarning : grows (check c msg isWarning).
Proof.
  intros s. unfold check.
  destruct c; [|destruct isWarning]; cbn;
    [reflexivity | reflexivity | apply prefix_app_r; reflexivity].
Qed.

Lemma grows_push_error msg : grows (push_error msg).
Proof. intros s. cbn. apply prefix_app_r. reflexivity. Qed.

Lemma grows_when b (m : M unit) : grows m -> grows (when b m).
Proof. destruct b; [trivial | intros _; apply grows_ret]. Qed.

Lemma grows_forEach_from {A} (l : list A) (f : A -> nat -> M unit) i :
  (forall x j, grows (f x j)) -> grows (forEach_from i l f).
Proof.
  intros Hf. revert i.
  induction l as [|x l IH]; intros i; cbn.
  - apply grows_ret.
  - apply grows_bind; [apply Hf | intros _; apply IH].
Qed.

Lemma grows_forEach {A} (l : list A) (f : A -> M unit) :
  (forall x, grows (f x)) -> grows (forEach l f).
Proof. intros Hf. apply grows_forEach_from. intros x _. apply Hf. Qed.

Lemma grows_compile_each w items index valid :
  grows (compile_each w index items valid).
Proof.
  revert index valid.
  induction items as [|p items IH]; intros index valid; cbn [compile_each].
  - apply grows_ret.
  - destruct (RegExp_error w p); [|apply IH].
    apply grows_bind; [apply grows_push_error | intros _; apply IH].
Qed.

Lemma returns_compile_each w items index valid :
  returns (compile_each w index items valid).
Proof.
  revert index valid.
  induction items as [|p items IH]; intros index valid; cbn [compile_each].
  - apply returns_ret.
  - destruct (RegExp_error w p); [|apply IH].
    apply returns_bind; [apply returns_push_error | intros _; apply IH].
Qed.

End MethodFacts.

(** Walking through the body of a method. *)
Ltac returns_walk :=
  repeat first
    [ apply returns_ret | apply returns_check | apply returns_push_error
    | apply returns_bind; [|intros ?]
    | apply returns_try_catch; intros ?
    | apply returns_forEach; intros ?
    | apply returns_when
    | match goal with
      | |- Run.returns (match ?x with _ => _ end) => destruct x
      end ].

Ltac grows_walk :=
  repeat first
    [ apply grows_ret | apply grows_check | apply grows_push_error
    | apply grows_lift | apply grows_throw | apply grows_compile_each
    | apply grows_bind; [|intros ?]
    | apply grows_try_catch; [|intros ?]
    | apply grows_forEach; intros ?
    | apply grows_when
    | match goal with
      | |- Run.grows (match ?x with _ => _ end) => destruct x
      end ].

Section PhaseFacts.
Import Validator Run.
Local Open Scope validator_scope.

(** Every phase catches what it throws. *)
Lemma validateEnvironment_returns w : returns (validateEnvironment w).
Proof. unfold validateEnvironment. returns_walk. Qed.

Lemma validateRedisConnection_returns w :
  returns (validateRedisConnection w).
Proof. unfold validateRedisConnection. returns_walk. Qed.

Lemma validateConfiguration_returns w : returns (validateConfiguration w).
Proof. unfold validateConfiguration. returns_walk. Qed.

Lemma validateTemplates_returns w : returns (validateTemplates w).
Proof. unfold validateTemplates. returns_walk. Qed.

Lemma validateDependencies_returns w : returns (validateDependencies w).
Proof. unfold validateDependencies. returns_walk. Qed.

Lemma phases_return w : returns (phases w).
Proof.
  unfold phases.
  apply returns_bind; [apply validateEnvironment_returns | intros _].
  apply returns_bind; [apply validateRedisConnection_returns | intros _].
  apply returns_bind; [apply validateConfiguration_returns | intros _].
  apply returns_bind; [apply validateTemplates_returns | intros _].
  apply validateDependencies_returns.
Qed.

(** No phase removes an error. *)
Lemma validateEnvironment_grows w : grows (validateEnvironment w).
Proof. unfold validateEnvironment. grows_walk. Qed.

Lemma validateRedisConnection_grows w : grows (validateRedisConnection w).
Proof. unfold validateRedisConnection. grows_walk. Qed.


Lemma validateTemplates_grows w : grows (validateTemplates w).
Proof. unfold validateTemplates. grows_walk. Qed.

Lemma validateDependencies_grows w : grows (validateDependencies w).
Proof. unfold validateDependencies. grows_walk. Qed.

(** *** [displaySummary] and [main] *)

Lemma displaySummary_result s :
  displaySummary s = (Ok (bool_decide (errors s = [])), s).
Proof. unfold displaySummary. destruct (errors s); reflexivity. Qed.

Lemma main_result w :
  main w
  = (if bool_decide (errors (snd (phases w init)) = []) then 0%Z else 1%Z,
     snd (phases w init)).
Proof.
  unfold main, bind. destruct (phases_return w init) as [u Hu].
  destruct (phases w init) as [[u'|e] s]; cbn in *; [|discriminate].
  rewrite displaySummary_result. destruct (bool_decide _); reflexivity.
Qed.


(** A run with warnings and no error ends with status 0. *)
Example warnings_do_not_fail :
  let s := snd (main Fixture.sloppy_project) in
  fst (main Fixture.sloppy_project) = 0%Z
  /\ errors s = []
  /\ warnings s = [invalid_url_message; invalid_number_message "BUFFER_TTL"].
Proof. vm_compute. repeat split. Qed.

End PhaseFacts.

Section EnvironmentFacts.
Import Validator Run.
Local Open Scope validator_scope.

(** *** The exact effect of a sequence of checks *)









Lemma truthy_env_get w varName :
  truthy (env_get w varName) = negb (missing w varName).
Proof.
  unfold env_get, missing. destruct (env w !! varName); reflexivity.
Qed.






(** With the template as [.env] the environment phase records nothing. *)
Example template_environment_is_clean :
  missing_errors Fixture.medical_project = []
  /\ format_warnings Fixture.medical_project = [].
Proof. vm_compute. split; reflexivity. Qed.

(** What [parseInt] accepts and what it does not. *)
Example numbers_read_by_parseInt :
  valid_positive (utf16 "300") = true
  /\ valid_positive (utf16 "12abc") = true
  /\ valid_positive (utf16 "0x1F") = true
  /\ valid_positive (utf16 "0.5") = false
  /\ valid_positive (utf16 "-5") = false
  /\ valid_positive (utf16 "five") = false.
Proof. vm_compute. repeat split. Qed.

End EnvironmentFacts.

Section PatternCompilation.
Import Validator Run.
Local Open Scope validator_scope.

Lemma records_lift_ok {A B} (e : list N) (a : A) (k : A -> M B) :
  records e (k a) -> records e (bind (lift (Ok a)) k).
Proof. intros H s. exact (H s). Qed.

Lemma returns_lift_ok {A} (a : A) : returns (lift (Ok a)).
Proof. intros s. exists a. reflexivity. Qed.

Lemma records_push_error e : records e (push_error e).
Proof. intros s. cbn. set_solver. Qed.

(** The loop records the exception of every pattern that does not
    compile, under the index of the pattern. *)
Lemma records_compile_each w items :
  forall start valid index p message,
    items !! index = Some p ->
    RegExp_error w p = Some message ->
    records (invalid_fragment_message (start + index) message)
            (compile_each w start items valid).
Proof.
  induction items as [|p0 items IH]; intros start valid index p message Hp He.
  - discriminate Hp.
  - cbn [compile_each]. destruct index as [|index]; cbn in Hp.
    + injection Hp as ->. rewrite He, Nat.add_0_r.
      apply records_bind_l; [apply records_push_error|].
      intros _. apply grows_compile_each.
    + replace (start + S index)%nat with (S start + index)%nat by lia.
      destruct (RegExp_error w p0).
      * apply records_bind_r; [apply returns_push_error|].
        intros _. eapply IH; eassumption.
      * eapply IH; eassumption.
Qed.

Lemma at_path_step v k path items :
  at_path v (k :: path) = Arr items ->
  exists x, get v k = Ok x /\ at_path x path = Arr items.
Proof.
  cbn [at_path]. destruct (get v k) as [x|e]; [eauto | discriminate].
Qed.

(** A value that has a property with a name that is neither [length] nor
    an index is an object. *)
Lemma get_named v k x :
  get v k = Ok x -> x <> Undefined ->
  String.eqb k "length" = false -> index_of_key k = None ->
  exists props, v = Obj props.
Proof.
  intros Hg Hx Hl Hi. destruct v; cbn in Hg; try discriminate Hg;
    try (injection Hg as <-; congruence); eauto;
    rewrite Hl, Hi in Hg; injection Hg as <-; congruence.
Qed.

Lemma records_validateConfiguration w cfg items index p message :
  existsSync w (configPath w) = true ->
  require w (configPath w) = Ok cfg ->
  at_path cfg ["semantic"; "patterns"; "fragments"] = Arr items ->
  items !! index = Some p ->
  RegExp_error w p = Some message ->
  records (invalid_fragment_message index message)
          (validateConfiguration w).
Proof.
  intros Hex Hreq Hpath Hp He.
  apply at_path_step in Hpath as (sem & Hsem & Hpath).
  apply at_path_step in Hpath as (pats & Hpats & Hpath).
  apply at_path_step in Hpath as (frags & Hfrags & Hpath).
  cbn in Hpath. subst frags.
  destruct (get_named _ _ _ Hfrags) as [pp ->];
    [discriminate | reflexivity | reflexivity |].
  destruct (get_named _ _ _ Hpats) as [sp ->];
    [discriminate | reflexivity | reflexivity |].
  destruct (get_named _ _ _ Hsem) as [cp Hcfg];
    [discriminate | reflexivity | reflexivity |].
  unfold validateConfiguration.
  apply records_bind_r; [apply returns_check | intros _].
  rewrite Hex. cbn [negb].
  apply records_try_catch; [|intros x; grows_walk].
  rewrite Hreq. apply records_lift_ok.
  apply records_bind_r.
  { apply returns_forEach. intros section. rewrite Hcfg. cbn [get].
    apply returns_bind; [apply returns_lift_ok | intros v].
    apply returns_bind; [apply returns_check | intros _].
    apply returns_ret. }
  intros _. rewrite Hsem. apply records_lift_ok.
  rewrite Hpats. cbn [and_then truthy]. apply records_lift_ok.
  apply records_bind_l; [|intros _; grows_walk].
  cbn [when]. apply records_lift_ok.
  rewrite Hfrags. apply records_lift_ok.
  apply records_bind_r; [apply returns_check | intros _].
  cbn [get]. apply records_lift_ok.
  apply records_bind_r; [apply returns_check | intros _].
  cbn [as_array]. apply records_lift_ok.
  apply records_bind_l; [|intros valid; grows_walk].
  apply (records_compile_each w items 0 true index p message Hp He).
Qed.

Lemma configuration_errors_stay w e :
  records e (validateConfiguration w) -> e ∈ errors (snd (phases w init)).
Proof.
  intros H. unfold phases.
  apply records_bind_r; [apply validateEnvironment_returns | intros _].
  apply records_bind_r; [apply validateRedisConnection_returns | intros _].
  apply records_bind_l; [exact H | intros _].
  apply grows_bind; [apply validateTemplates_grows | intros _].
  apply validateDependencies_grows.
Qed.

(** C3 (as stated, refuted): in this project the pattern of the
    [appointment] intent, a complete pattern and the [dni] entity pattern
    are malformed (an unterminated group each), and the validator
    records no error and ends with status 0. *)
Lemma malformed_patterns_elsewhere_pass :
  let w := Fixture.broken_elsewhere in
  let config := Fixture.config_with MedicalConfig.fragments
                  Fixture.broken_complete Fixture.broken_intents
                  Fixture.broken_entities in
  require w (configPath w) = Ok config
  /\ RegExp_error w
       (at_path config ["semantic"; "patterns"; "intents"; "appointment"])
     <> None
  /\ RegExp_error w
       (at_path config ["semantic"; "patterns"; "entities"; "dni"])
     <> None
  /\ RegExp_error w
       (at_path config ["semantic"; "patterns"; "complete"; "1"])
     <> None
  /\ errors (snd (main w)) = []
  /\ fst (main w) = 0%Z.
Proof. vm_compute. repeat split; discriminate. Qed.

Lemma records_check_false e : records e (check false e false).
Proof. intros s. cbn. set_solver. Qed.

(** A configuration module that throws while it loads leaves the message
    of the exception among the errors. *)
Lemma records_loading_failure w message :
  existsSync w (configPath w) = true ->
  require w (configPath w) = Throw message ->
  records (utf16 "Configuration loading failed: " ++ message)
          (validateConfiguration w).
Proof.
  intros Hex Hreq. unfold validateConfiguration.
  apply records_bind_r; [apply returns_check | intros _].
  rewrite Hex. cbn [negb]. rewrite Hreq.
  intros s. unfold try_catch. unfold bind at 1. unfold lift.
  cbv beta iota.
  apply (records_bind_l _ (check false _ false) (fun _ => ret tt));
    [apply records_check_false | intros _; apply grows_ret].
Qed.

Lemma recorded_error_exits w e :
  e ∈ errors (snd (phases w init)) ->
  e ∈ errors (snd (main w)) /\ fst (main w) = 1%Z.
Proof.
  intros Hin. rewrite main_result. cbn [fst snd]. split; [exact Hin|].
  rewrite bool_decide_eq_false_2; [reflexivity|].
  intros Hnil. rewrite Hnil in Hin. inversion Hin.
Qed.

(** Two method bodies that do the same from every state. *)
Lemma agree_bind {A B} (m m' : M A) (k k' : A -> M B) :
  (forall s, m s = m' s) -> (forall a s, k a s = k' a s) ->
  forall s, bind m k s = bind m' k' s.
Proof.
  intros Hm Hk s. unfold bind. rewrite Hm.
  destruct (m' s) as [[a|e] s']; [apply Hk | reflexivity].
Qed.

Lemma agree_bind_lift {A B} (r : result A) (k k' : A -> M B) :
  (forall a, r = Ok a -> forall s, k a s = k' a s) ->
  forall s, bind (lift r) k s = bind (lift r) k' s.
Proof.
  intros Hk s. unfold bind, lift.
  destruct r as [a|e]; [apply (Hk a eq_refl) | reflexivity].
Qed.

Lemma agree_try_catch {A} (body body' : M A) (handler : list N -> M A) :
  (forall s, body s = body' s) ->
  forall s, try_catch body handler s = try_catch body' handler s.
Proof. intros Hb s. unfold try_catch. rewrite Hb. reflexivity. Qed.

Lemma agree_when b (m m' : M unit) :
  (forall s, m s = m' s) -> forall s, when b m s = when b m' s.
Proof. intros Hm s. destruct b; [apply Hm | reflexivity]. Qed.

(** The loop over the fragment patterns asks the constructor about the
    items of the list and about nothing else. *)
Lemma agree_compile_each w constructor items :
  (forall p, p ∈ items -> constructor p = RegExp_error w p) ->
  forall index valid s,
    compile_each (with_RegExp w constructor) index items valid s
    = compile_each w index items valid s.
Proof.
  induction items as [|p items IH]; intros Hall index valid s;
    cbn [compile_each]; [reflexivity|].
  cbn [with_RegExp RegExp_error]. rewrite (Hall p) by left.
  assert (forall q, q ∈ items -> constructor q = RegExp_error w q) as Hrest
    by (intros q Hq; apply Hall; right; exact Hq).
  destruct (RegExp_error w p) as [message|]; [|apply IH, Hrest].
  apply agree_bind; [reflexivity | intros _ s'; apply IH, Hrest].
Qed.

Lemma agree_validateConfiguration w constructor :
  (forall cfg items p,
      require w (configPath w) = Ok cfg ->
      at_path cfg ["semantic"; "patterns"; "fragments"] = Arr items ->
      p ∈ items -> constructor p = RegExp_error w p) ->
  forall s,
    validateConfiguration (with_RegExp w constructor) s
    = validateConfiguration w s.
Proof.
  intros Hall. unfold validateConfiguration.
  change (configPath (with_RegExp w constructor)) with (configPath w).
  change (existsSync (with_RegExp w constructor)) with (existsSync w).
  change (require (with_RegExp w constructor)) with (require w).
  apply agree_bind; [reflexivity | intros _].
  destruct (negb (existsSync w (configPath w))); [reflexivity|].
  apply agree_try_catch.
  apply agree_bind_lift. intros config Hconfig.
  apply agree_bind; [reflexivity | intros _].
  apply agree_bind_lift. intros semantic Hsemantic.
  apply agree_bind_lift. intros has_patterns _.
  apply agree_bind; [|reflexivity].
  apply agree_when.
  apply agree_bind_lift. intros patterns Hpatterns.
  apply agree_bind_lift. intros fragments Hfragments.
  apply agree_bind; [reflexivity | intros _].
  apply agree_bind_lift. intros complete _.
  apply agree_bind; [reflexivity | intros _].
  apply agree_bind_lift. intros items Hitems.
  apply agree_bind; [|reflexivity].
  apply agree_compile_each. intros p Hp.
  apply (Hall config items p Hconfig); [|exact Hp].
  cbn [at_path]. rewrite Hsemantic, Hpatterns, Hfragments.
  destruct fragments; try discriminate Hitems.
  injection Hitems as ->. reflexivity.
Qed.

Lemma agree_main w constructor :
  (forall cfg items p,
      require w (configPath w) = Ok cfg ->
      at_path cfg ["semantic"; "patterns"; "fragments"] = Arr items ->
      p ∈ items -> constructor p = RegExp_error w p) ->
  main (with_RegExp w constructor) = main w.
Proof.
  intros Hall.
  assert (forall s, phases (with_RegExp w constructor) s = phases w s)
    as Hphases.
  { unfold phases.
    change (validateEnvironment (with_RegExp w constructor))
      with (validateEnvironment w).
    change (validateRedisConnection (with_RegExp w constructor))
      with (validateRedisConnection w).
    change (validateTemplates (with_RegExp w constructor))
      with (validateTemplates w).
    change (validateDependencies (with_RegExp w constructor))
      with (validateDependencies w).
    apply agree_bind; [reflexivity | intros _].
    apply agree_bind; [reflexivity | intros _].
    apply agree_bind; [|reflexivity].
    apply agree_validateConfiguration, Hall. }
  unfold main.
  rewrite (agree_bind _ _ _ _ Hphases (fun _ _ => eq_refl) init).
  reflexivity.
Qed.

(** C3 (amended): validation detects a malformed pattern in two cases.
    If a pattern of the configured [fragments] list is malformed, so that
    [new RegExp] throws on it, the validator records the error [Invalid
    regex in fragments[index]: ...] and the process exits with status 1.
    If loading the configuration module throws, the validator records
    [Configuration loading failed: ...] and the process exits with status
    1.  For a configuration module that loads, the validator passes the
    patterns of the [fragments] list to [new RegExp] and no other: the
    exit status and the validator it leaves are the same whatever
    [new RegExp] would do with any value that is not in that list. *)
Theorem malformed_fragment_fails_validation :
  (forall (w : World) (cfg : value) (items : list value) (index : nat)
          (p : value) (message : list N),
      existsSync w (configPath w) = true ->
      require w (configPath w) = Ok cfg ->
      at_path cfg ["semantic"; "patterns"; "fragments"] = Arr items ->
      items !! index = Some p ->
      RegExp_error w p = Some message ->
      invalid_fragment_message index message ∈ errors (snd (main w))
      /\ fst (main w) = 1%Z)
  /\ (forall (w : World) (message : list N),
         existsSync w (configPath w) = true ->
         require w (configPath w) = Throw message ->
         utf16 "Configuration loading failed: " ++ message
           ∈ errors (snd (main w))
         /\ fst (main w) = 1%Z)
  /\ (forall (w : World) (constructor : value -> option (list N)),
         (forall cfg items p,
             require w (configPath w) = Ok cfg ->
             at_path cfg ["semantic"; "patterns"; "fragments"] = Arr items ->
             p ∈ items -> constructor p = RegExp_error w p) ->
         main (with_RegExp w constructor) = main w).
Proof.
  split; [|split].
  - intros w cfg items index p message Hex Hreq Hpath Hp He.
    apply recorded_error_exits, configuration_errors_stay.
    eapply records_validateConfiguration; eassumption.
  - intros w message Hex Hreq.
    apply recorded_error_exits, configuration_errors_stay.
    apply records_loading_failure; assumption.
  - exact agree_main.
Qed.

Lemma malformed_fragment_fails_validation_witness :
  (let w := Fixture.broken_fragment_project in
   let message :=
     utf16 "Invalid regular expression: /^(turno|cita$/: Unterminated group" in
   (existsSync w (configPath w) = true
    /\ RegExp_error w (str "^(turno|cita$") = Some message)
   /\ invalid_fragment_message 1 message ∈ errors (snd (main w))
      /\ fst (main w) = 1%Z)
  /\ (let w := Fixture.project
                 (<["INDUSTRY_CONFIG" := utf16 "ecommerce"]>
                    EnvExample.environment) Null in
      require w (configPath w) = Throw (utf16 "Cannot find module")
      /\ utf16 "Configuration loading failed: " ++ utf16 "Cannot find module"
           ∈ errors (snd (main w))
         /\ fst (main w) = 1%Z)
  /\ main (with_RegExp Fixture.broken_elsewhere (fun _ => None))
     = main Fixture.broken_elsewhere.
Proof.
  split; [|split].
  - split.
    + split; vm_compute; reflexivity.
    + apply (proj1 malformed_fragment_fails_validation
               Fixture.broken_fragment_project
               (Fixture.config_with Fixture.broken_fragments
                  MedicalConfig.complete MedicalConfig.intents
                  MedicalConfig.entities)
               [RegExp "^(para|en|el|la|un|una|por)$" "i";
                str "^(turno|cita$"]
               1%nat (str "^(turno|cita$"));
        vm_compute; reflexivity.
  - split; [vm_compute; reflexivity|].
    apply (proj1 (proj2 malformed_fragment_fails_validation)
             (Fixture.project
                (<["INDUSTRY_CONFIG" := utf16 "ecommerce"]>
                   EnvExample.environment) Null)
             (utf16 "Cannot find module"));
      vm_compute; reflexivity.
  - apply (proj2 (proj2 malformed_fragment_fails_validation)
             Fixture.broken_elsewhere (fun _ => None)).
    intros cfg items p Hcfg Hitems Hp.
    vm_compute in Hcfg. injection Hcfg as <-.
    vm_compute in Hitems. injection Hitems as <-.
    repeat (apply elem_of_cons in Hp as [-> | Hp];
            [vm_compute; reflexivity|]).
    inversion Hp.
Defined.

(** The same slip in a complete pattern goes unnoticed as well. *)
Example malformed_complete_pattern_passes :
  let w :=
    Fixture.project EnvExample.environment
      (Fixture.config_with MedicalConfig.fragments Fixture.broken_complete
         MedicalConfig.intents MedicalConfig.entities) in
  RegExp_error w (str "(un turno") <> None /\ main w = (0%Z, snd (main w))
  /\ errors (snd (main w)) = [].
Proof. vm_compute. repeat split; discriminate. Qed.

End PatternCompilation.

(** ** Exact outcomes *)

Section OutcomeFacts.
Import Validator Run Outcome.
Local Open Scope validator_scope.

Lemma after_nothing s : after s [] [] 0 0 = s.
Proof.
  destruct s. unfold after. cbn [errors warnings checks passed].
  rewrite !app_nil_r, !Nat.add_0_r. reflexivity.
Qed.

Lemma after_after s es ws n p es' ws' n' p' :
  after (after s es ws n p) es' ws' n' p'
  = after s (es ++ es') (ws ++ ws') (n + n') (p + p').
Proof.
  unfold after. cbn [errors warnings checks passed].
  rewrite !app_assoc, !Nat.add_assoc. reflexivity.
Qed.

Lemma runs_ret {A} (a : A) : runs (ret a) (Ok a) [] [] 0 0.
Proof. intros s. unfold ret. rewrite after_nothing. reflexivity. Qed.

Lemma runs_lift {A} (r : result A) : runs (lift r) r [] [] 0 0.
Proof. intros s. unfold lift. rewrite after_nothing. reflexivity. Qed.

Lemma runs_throw {A} e : runs (@throw A e) (Throw e) [] [] 0 0.
Proof. intros s. unfold throw. rewrite after_nothing. reflexivity. Qed.

Lemma runs_bind {A B} (m : M A) (k : A -> M B) a r es ws n p es' ws' n' p' :
  runs m (Ok a) es ws n p -> runs (k a) r es' ws' n' p' ->
  runs (bind m k) r (es ++ es') (ws ++ ws') (n + n') (p + p').
Proof.
  intros Hm Hk s. unfold bind. rewrite Hm, Hk, after_after. reflexivity.
Qed.

Lemma runs_bind_throw {A B} (m : M A) (k : A -> M B) e es ws n p :
  runs m (Throw e) es ws n p -> runs (bind m k) (Throw e) es ws n p.
Proof. intros Hm s. unfold bind. rewrite Hm. reflexivity. Qed.

Lemma runs_try {A} (body : M A) handler a es ws n p :
  runs body (Ok a) es ws n p -> runs (try_catch body handler) (Ok a) es ws n p.
Proof. intros Hb s. unfold try_catch. rewrite Hb. reflexivity. Qed.

Lemma runs_catch {A} (body : M A) handler e r es ws n p es' ws' n' p' :
  runs body (Throw e) es ws n p -> runs (handler e) r es' ws' n' p' ->
  runs (try_catch body handler) r
       (es ++ es') (ws ++ ws') (n + n') (p + p').
Proof.
  intros Hb Hh s. unfold try_catch. rewrite Hb, Hh, after_after. reflexivity.
Qed.

Lemma runs_eq {A} (m : M A) r es ws n p es' ws' n' p' :
  runs m r es ws n p -> es = es' -> ws = ws' -> n = n' -> p = p' ->
  runs m r es' ws' n' p'.
Proof. intros H <- <- <- <-. exact H. Qed.

Lemma runs_check_true msg isWarning :
  runs (check true msg isWarning) (Ok true) [] [] 1 1.
Proof.
  intros s. unfold check, after, set_passed, set_checks.
  cbn [errors warnings checks passed]. do 2 f_equal; rewrite ?app_nil_r; first [reflexivity | lia].
Qed.

Lemma runs_error msg : runs (check false msg false) (Ok false) [msg] [] 1 0.
Proof.
  intros s. unfold check, after, set_errors, set_checks.
  cbn [errors warnings checks passed]. do 2 f_equal; rewrite ?app_nil_r; first [reflexivity | lia].
Qed.

Lemma runs_warning msg : runs (check false msg true) (Ok false) [] [msg] 1 0.
Proof.
  intros s. unfold check, after, set_warnings, set_checks.
  cbn [errors warnings checks passed]. do 2 f_equal; rewrite ?app_nil_r; first [reflexivity | lia].
Qed.

(** Two outcomes of one method are the same outcome. *)
Lemma runs_unique {A} (m : M A) r es ws n p r' es' ws' n' p' :
  runs m r es ws n p -> runs m r' es' ws' n' p' ->
  r = r' /\ es = es' /\ ws = ws' /\ n = n' /\ p = p'.
Proof.
  intros H H'. specialize (H init). rewrite (H' init) in H.
  injection H as -> He Hw Hn Hp. cbn in *. auto.
Qed.

End OutcomeFacts.

(** ** The Redis phase *)

Section RedisFacts.
Import Validator Run Outcome.
Local Open Scope validator_scope.

(** X1: without [REDIS_URL] the Redis phase is one failed check, with the
    error [Cannot test Redis - REDIS_URL not configured], and the Redis
    server is not contacted: the outcome is the same whatever Redis would
    answer. *)
Theorem redis_phase_needs_url (w : World) :
  missing w "REDIS_URL" = true ->
  runs (validateRedisConnection w) (Ok tt)
       [utf16 "Cannot test Redis - REDIS_URL not configured"] [] 1 0.
Proof.
  intros Hm. unfold validateRedisConnection.
  rewrite truthy_env_get, Hm. cbn [negb].
  eapply runs_eq;
    [eapply runs_bind; [apply runs_error | apply runs_ret] | | | |];
    rewrite ?app_nil_r; reflexivity.
Qed.

Lemma redis_phase_needs_url_witness :
  missing Fixture.no_redis_project "REDIS_URL" = true
  /\ runs (validateRedisConnection Fixture.no_redis_project) (Ok tt)
          [utf16 "Cannot test Redis - REDIS_URL not configured"] [] 1 0.
Proof.
  split.
  - vm_compute. reflexivity.
  - apply (redis_phase_needs_url Fixture.no_redis_project).
    vm_compute. reflexivity.
Defined.

Lemma app_cons_neq {A} (l l' : list A) x : l ++ x :: l' <> l.
Proof.
  intros H. apply (f_equal length) in H.
  rewrite length_app in H. cbn in H. lia.
Qed.

(** X2: with [REDIS_URL] set, the Redis phase adds no error exactly when
    the value read back is ['validation'], the TTL of the test key is
    positive and nothing throws, [disconnect] included. *)
Theorem redis_phase_verdict (w : World) (s : state) :
  missing w "REDIS_URL" = false ->
  errors (snd (validateRedisConnection w s)) = errors s
  <-> exists t, (0 < t)%Z
       /\ redis w = GetReturns (Some (utf16 "validation")) (TtlReturns t None).
Proof.
  intros Hm. unfold validateRedisConnection.
  rewrite truthy_env_get, Hm. cbn [negb].
  unfold try_catch, bind, throw, ret.
  destruct (redis w) as [e|testValue [e|hasTtl [e|]]].
  - cbn -[utf16]. split.
    + intros He. exfalso. revert He. apply app_cons_neq.
    + intros (t & _ & Heq). discriminate Heq.
  - destruct (bool_decide _); cbn -[utf16]; (split;
      [ intros He; exfalso; revert He; rewrite <- ?app_assoc;
        apply app_cons_neq
      | intros (t & _ & Heq); discriminate Heq ]).
  - destruct (bool_decide _), (0 <? hasTtl)%Z; cbn -[utf16]; (split;
      [ intros He; exfalso; revert He; rewrite <- ?app_assoc;
        apply app_cons_neq
      | intros (t & _ & Heq); discriminate Heq ]).
  - case_bool_decide as Hv; destruct (0 <? hasTtl)%Z eqn:Ht; cbn -[utf16].
    + split; [intros _ | reflexivity].
      subst testValue. exists hasTtl. split; [lia | reflexivity].
    + split.
      * intros He. exfalso. revert He. apply app_cons_neq.
      * intros (t & Hpos & Heq). injection Heq as _ ->. lia.
    + split.
      * intros He. exfalso. revert He. apply app_cons_neq.
      * intros (t & Hpos & Heq). injection Heq as -> _. congruence.
    + split.
      * intros He. exfalso. revert He. rewrite <- app_assoc.
        apply app_cons_neq.
      * intros (t & Hpos & Heq). injection Heq as -> _. congruence.
Qed.

Lemma redis_phase_verdict_witness :
  missing Fixture.medical_project "REDIS_URL" = false
  /\ errors (snd (validateRedisConnection Fixture.medical_project init))
     = errors init.
Proof.
  split.
  - vm_compute. reflexivity.
  - apply (redis_phase_verdict Fixture.medical_project init).
    + vm_compute. reflexivity.
    + exists 1%Z. split; [lia | reflexivity].
Defined.

End RedisFacts.

(** ** The configuration phase *)

Section ConfigurationFacts.
Import Validator Run Outcome.
Local Open Scope validator_scope.

Lemma runs_error_then_return msg :
  runs (check false msg false ;; ret tt) (Ok tt) [msg] [] 1 0.
Proof.
  eapply runs_eq;
    [eapply runs_bind; [apply runs_error | apply runs_ret] | | | |];
    rewrite ?app_nil_r; reflexivity.
Qed.

(** X3: when the configuration file does not exist, the configuration
    phase is one failed check with the error [Configuration file not
    found: <path>], and nothing is loaded: the outcome does not depend on
    what [require] would give. *)
Theorem missing_configuration_file (w : World) :
  existsSync w (configPath w) = false ->
  runs (validateConfiguration w) (Ok tt)
       [utf16 "Configuration file not found: " ++ configPath w] [] 1 0.
Proof.
  intros Hex. unfold validateConfiguration. rewrite Hex. cbn [negb].
  apply runs_error_then_return.
Qed.

Lemma missing_configuration_file_witness :
  let w := {| cwd := Fixture.root;
              env := EnvExample.environment;
              existsSync := fun _ => false;
              require := fun _ => Ok Null;
              readJSON := fun _ => Ok Null;
              RegExp_error := new_RegExp_error;
              redis := SetupThrows [] |} in
  existsSync w (configPath w) = false
  /\ runs (validateConfiguration w) (Ok tt)
          [utf16 "Configuration file not found: " ++ configPath w] [] 1 0.
Proof.
  split; [reflexivity|].
  apply (missing_configuration_file
           {| cwd := Fixture.root;
              env := EnvExample.environment;
              existsSync := fun _ => false;
              require := fun _ => Ok Null;
              readJSON := fun _ => Ok Null;
              RegExp_error := new_RegExp_error;
              redis := SetupThrows [] |}).
  reflexivity.
Defined.

(** X4: when loading the configuration module throws, the phase records
    the single error [Configuration loading failed: <message>] after the
    passed check of the file, and returns. *)
Theorem configuration_loading_failure (w : World) (message : list N) :
  existsSync w (configPath w) = true ->
  require w (configPath w) = Throw message ->
  runs (validateConfiguration w) (Ok tt)
       [utf16 "Configuration loading failed: " ++ message] [] 2 1.
Proof.
  intros Hex Hreq. unfold validateConfiguration. rewrite Hex, Hreq.
  cbn [negb].
  eapply runs_eq.
  - eapply runs_bind; [apply runs_check_true|].
    eapply runs_catch.
    + apply runs_bind_throw. apply runs_lift.
    + apply runs_error_then_return.
  - reflexivity.
  - reflexivity.
  - reflexivity.
  - reflexivity.
Qed.

Lemma configuration_loading_failure_witness :
  let w := Fixture.project
             (<["INDUSTRY_CONFIG" := utf16 "ecommerce"]> EnvExample.environment)
             Null in
  configPath w = utf16 "/srv/n8n-smart-buffer/config/ecommerce-config.js"
  /\ runs (validateConfiguration w) (Ok tt)
          [utf16 "Configuration loading failed: "
           ++ utf16 "Cannot find module"] [] 2 1.
Proof.
  split; [vm_compute; reflexivity|].
  apply (configuration_loading_failure
           (Fixture.project
              (<["INDUSTRY_CONFIG" := utf16 "ecommerce"]>
                 EnvExample.environment) Null)
           (utf16 "Cannot find module"));
    vm_compute; reflexivity.
Defined.

(** *** Methods that fail *)

Lemma fot_bind_lift {A B} (r : result A) (k : A -> M B) :
  (forall a, r = Ok a -> fails_or_throws (k a)) ->
  fails_or_throws (bind (lift r) k).
Proof.
  intros H s. unfold bind, lift. destruct r as [a|e].
  - apply (H a eq_refl).
  - exists []. cbn [fst snd]. rewrite app_nil_r. split; [reflexivity|].
    intros a Ha. discriminate Ha.
Qed.

Lemma fot_bind_r {A B} (m : M A) (k : A -> M B) :
  grows m -> (forall a, fails_or_throws (k a)) ->
  fails_or_throws (bind m k).
Proof.
  intros Hm Hk s. unfold bind. destruct (Hm s) as [l Hl].
  destruct (m s) as [[a|e] s1]; cbn [fst snd] in *.
  - destruct (Hk a s1) as (l' & Hl' & Hne). exists (l ++ l'). split.
    + rewrite Hl', Hl, app_assoc. reflexivity.
    + intros b Hb Hnil. apply app_eq_nil in Hnil as [_ Hnil].
      exact (Hne b Hb Hnil).
  - exists l. split; [exact Hl|]. intros a Ha. discriminate Ha.
Qed.

Lemma fot_bind_l {A B} (m : M A) (k : A -> M B) :
  fails_or_throws m -> (forall a, grows (k a)) ->
  fails_or_throws (bind m k).
Proof.
  intros Hm Hk s. unfold bind. destruct (Hm s) as (l & Hl & Hne).
  destruct (m s) as [[a|e] s1]; cbn [fst snd] in *.
  - destruct (Hk a s1) as [l' Hl']. exists (l ++ l'). split.
    + rewrite Hl', Hl, app_assoc. reflexivity.
    + intros b _ Hnil. apply app_eq_nil in Hnil as [Hnil _].
      exact (Hne a eq_refl Hnil).
  - exists l. split; [exact Hl|]. intros a Ha. discriminate Ha.
Qed.

Lemma fot_check_false msg : fails_or_throws (check false msg false).
Proof.
  intros s. exists [msg]. split; [reflexivity|].
  intros _ _ Hnil. discriminate Hnil.
Qed.

Lemma fot_forEach_from {A} (l : list A) (f : A -> nat -> M unit) x :
  x ∈ l ->
  (forall i, fails_or_throws (f x i)) -> (forall y i, grows (f y i)) ->
  forall i, fails_or_throws (forEach_from i l f).
Proof.
  intros Hx Hfx Hf.
  induction l as [|y l IH]; intros i; [inversion Hx|].
  cbn [forEach_from]. apply elem_of_cons in Hx as [->|Hx].
  - apply fot_bind_l; [apply Hfx|].
    intros _. apply grows_forEach_from. exact Hf.
  - apply fot_bind_r; [apply Hf|]. intros _. apply IH. exact Hx.
Qed.

Lemma fot_forEach {A} (l : list A) (f : A -> M unit) x :
  x ∈ l -> fails_or_throws (f x) -> (forall y, grows (f y)) ->
  fails_or_throws (forEach l f).
Proof.
  intros Hx Hfx Hf. unfold forEach.
  apply fot_forEach_from with (x := x); auto.
Qed.

Lemma fails_try_catch {A} (body : M A) (handler : list N -> M A) :
  fails_or_throws body -> (forall e, fails (handler e)) ->
  fails (try_catch body handler).
Proof.
  intros Hb Hh s. unfold try_catch. destruct (Hb s) as (l & Hl & Hne).
  destruct (body s) as [[a|e] s1]; cbn [fst snd] in *.
  - exists l. split; [exact Hl | exact (Hne a eq_refl)].
  - destruct (Hh e s1) as (l' & Hl' & Hne'). exists (l ++ l'). split.
    + rewrite Hl', Hl, app_assoc. reflexivity.
    + intros Hnil. apply app_eq_nil in Hnil as [_ Hnil]. exact (Hne' Hnil).
Qed.

Lemma fails_after_check {B} c msg isWarning (k : M B) :
  fails k -> fails (check c msg isWarning ;; k).
Proof.
  intros Hk s. unfold bind.
  destruct (grows_check c msg isWarning s) as [l Hl].
  destruct (returns_check c msg isWarning s) as [b Hb].
  destruct (check c msg isWarning s) as [[b'|e] s1]; cbn [fst snd] in *;
    [|discriminate Hb].
  destruct (Hk s1) as (l' & Hl' & Hne). exists (l ++ l'). split.
  - rewrite Hl', Hl, app_assoc. reflexivity.
  - intros Hnil. apply app_eq_nil in Hnil as [_ Hnil]. exact (Hne Hnil).
Qed.

Lemma fails_handler msg : fails (check false msg false ;; ret tt).
Proof.
  intros s. exists [msg]. split; [reflexivity | discriminate].
Qed.

Lemma fails_bind_r {A B} (m : M A) (k : A -> M B) :
  returns m -> grows m -> (forall a, fails (k a)) -> fails (bind m k).
Proof.
  intros Hr Hm Hk s. unfold bind.
  destruct (Hm s) as [l Hl]. destruct (Hr s) as [a Ha].
  destruct (m s) as [[a'|e] s1]; cbn [fst snd] in *; [|discriminate Ha].
  destruct (Hk a' s1) as (l' & Hl' & Hne). exists (l ++ l'). split.
  - rewrite Hl', Hl, app_assoc. reflexivity.
  - intros Hnil. apply app_eq_nil in Hnil as [_ Hnil]. exact (Hne Hnil).
Qed.

Lemma fails_bind_l {A B} (m : M A) (k : A -> M B) :
  fails m -> (forall a, grows (k a)) -> fails (bind m k).
Proof.
  intros Hm Hk s. unfold bind. destruct (Hm s) as (l & Hl & Hne).
  destruct (m s) as [[a|e] s1]; cbn [fst snd] in *.
  - destruct (Hk a s1) as [l' Hl']. exists (l ++ l'). split.
    + rewrite Hl', Hl, app_assoc. reflexivity.
    + intros Hnil. apply app_eq_nil in Hnil as [Hnil _]. exact (Hne Hnil).
  - exists l. split; [exact Hl | exact Hne].
Qed.

(** A failed configuration phase makes the run end with status 1. *)
Lemma failed_configuration_exits w :
  fails (validateConfiguration w) -> fst (main w) = 1%Z.
Proof.
  intros Hf. rewrite main_result. cbn [fst].
  rewrite bool_decide_eq_false_2; [reflexivity|].
  assert (Hp : fails (phases w)).
  { unfold phases.
    apply fails_bind_r;
      [apply validateEnvironment_returns | apply validateEnvironment_grows|].
    intros _. apply fails_bind_r;
      [apply validateRedisConnection_returns
      |apply validateRedisConnection_grows|].
    intros _. apply fails_bind_l; [exact Hf|].
    intros _. apply grows_bind; [apply validateTemplates_grows|].
    intros _. apply validateDependencies_grows. }
  destruct (Hp init) as (l & Hl & Hne). rewrite Hl. cbn [errors init app].
  exact Hne.
Qed.

Lemma at_path_truthy v k path :
  truthy (at_path v (k :: path)) = true ->
  exists x, get v k = Ok x /\ truthy (at_path x path) = true.
Proof.
  cbn [at_path]. destruct (get v k) as [x|e]; [eauto | discriminate].
Qed.

Lemma truthy_defined v : truthy v = true -> v <> Undefined.
Proof. intros H ->. discriminate H. Qed.

(** X5: a loaded configuration in which one of the four required sections
    ([semantic], [timing], [buffer], [circuitBreaker]) is absent or falsy
    never passes: the run ends with status 1. *)
Theorem missing_section_fails (w : World) (cfg : value) (section : string) :
  existsSync w (configPath w) = true ->
  require w (configPath w) = Ok cfg ->
  section ∈ requiredSections ->
  truthy (at_path cfg [section]) = false ->
  fst (main w) = 1%Z.
Proof.
  intros Hex Hreq Hsec Hfalsy.
  apply failed_configuration_exits. unfold validateConfiguration.
  apply fails_after_check. rewrite Hex. cbn [negb].
  apply fails_try_catch; [|intros e; apply fails_handler].
  rewrite Hreq. apply fot_bind_lift. intros ? [= <-].
  apply fot_bind_l; [|intros _; grows_walk].
  apply fot_forEach with (x := section); [exact Hsec | | intros y; grows_walk].
  apply fot_bind_lift. intros v Hv.
  cbn [at_path] in Hfalsy. rewrite Hv in Hfalsy. rewrite Hfalsy.
  apply fot_bind_l; [apply fot_check_false | intros _; apply grows_ret].
Qed.

Lemma missing_section_fails_witness :
  let cfg := Obj [("semantic", MedicalConfig.semantic);
                  ("timing", MedicalConfig.timing);
                  ("buffer", MedicalConfig.buffer)] in
  let w := Fixture.project EnvExample.environment cfg in
  truthy (at_path cfg ["circuitBreaker"]) = false /\ fst (main w) = 1%Z.
Proof.
  split.
  - reflexivity.
  - apply (missing_section_fails
             (Fixture.project EnvExample.environment
                (Obj [("semantic", MedicalConfig.semantic);
                      ("timing", MedicalConfig.timing);
                      ("buffer", MedicalConfig.buffer)]))
             (Obj [("semantic", MedicalConfig.semantic);
                   ("timing", MedicalConfig.timing);
                   ("buffer", MedicalConfig.buffer)])
             "circuitBreaker");
      [vm_compute; reflexivity | vm_compute; reflexivity
      | unfold requiredSections; set_solver | reflexivity].
Defined.

(** Passing over a step of the body that cannot hide a later failure. *)
Ltac fot_skip :=
  first [ apply fot_bind_lift; intros ? ?
        | apply fot_bind_r; [grows_walk | intros ?] ].

(** X6: a loaded configuration with timing profiles in which some profile
    lacks a positive number for [urgent], [simple] or [complex] never
    passes: the run ends with status 1. *)
Theorem invalid_timing_fails (w : World) (cfg : value)
    (profileName class : string) :
  existsSync w (configPath w) = true ->
  require w (configPath w) = Ok cfg ->
  truthy (at_path cfg ["timing"; "profiles"]) = true ->
  profileName ∈ keys (at_path cfg ["timing"; "profiles"]) ->
  class ∈ ["urgent"; "simple"; "complex"] ->
  positive_number (at_path cfg ["timing"; "profiles"; profileName; class])
  = false ->
  fst (main w) = 1%Z.
Proof.
  intros Hex Hreq Htruthy Hname Hclass Hbad.
  destruct (at_path_truthy _ _ _ Htruthy) as (timing & Htiming & Ht2).
  destruct (at_path_truthy _ _ _ Ht2) as (profiles & Hprofiles & Ht3).
  cbn [at_path] in Ht3, Hname, Hbad.
  rewrite Htiming in Hname, Hbad. rewrite Hprofiles in Hname, Hbad.
  assert (Htt : truthy timing = true).
  { destruct (get_named _ _ _ Hprofiles) as [ps ->];
      [apply truthy_defined; exact Ht3 | reflexivity | reflexivity
      | reflexivity]. }
  apply failed_configuration_exits. unfold validateConfiguration.
  apply fails_after_check. rewrite Hex. cbn [negb].
  apply fails_try_catch; [|intros e; apply fails_handler].
  rewrite Hreq. apply fot_bind_lift. intros ? [= <-].
  do 4 fot_skip.
  rewrite Htiming. apply fot_bind_lift. intros ? [= <-].
  rewrite Hprofiles. unfold and_then. rewrite Htt, Ht3.
  apply fot_bind_lift. intros ? [= <-]. cbn [when].
  apply fot_bind_l; [|intros _; grows_walk].
  apply fot_bind_lift. intros ? [= <-].
  apply fot_bind_r; [apply grows_check | intros _].
  apply fot_forEach with (x := profileName);
    [exact Hname | | intros y; grows_walk].
  apply fot_bind_lift. intros profile Hprofile.
  apply fot_forEach with (x := class);
    [exact Hclass | | intros y; grows_walk].
  apply fot_bind_lift. intros t Ht.
  rewrite Hprofile, Ht in Hbad. rewrite Hbad.
  apply fot_bind_l; [apply fot_check_false | intros _; apply grows_ret].
Qed.

Lemma invalid_timing_fails_witness :
  let cfg :=
    Obj [("semantic", MedicalConfig.semantic);
         ("timing", Obj [("profiles", Obj [
            ("balanced", Obj [("urgent", Num 2000); ("simple", str "3000");
                              ("complex", Num 4000)])])]);
         ("buffer", MedicalConfig.buffer);
         ("circuitBreaker", MedicalConfig.circuitBreaker)] in
  let w := Fixture.project EnvExample.environment cfg in
  positive_number (at_path cfg ["timing"; "profiles"; "balanced"; "simple"])
  = false
  /\ fst (main w) = 1%Z.
Proof.
  split.
  - reflexivity.
  - apply (invalid_timing_fails
             (Fixture.project EnvExample.environment
                (Obj [("semantic", MedicalConfig.semantic);
                      ("timing", Obj [("profiles", Obj [
                         ("balanced", Obj [("urgent", Num 2000);
                                           ("simple", str "3000");
                                           ("complex", Num 4000)])])]);
                      ("buffer", MedicalConfig.buffer);
                      ("circuitBreaker", MedicalConfig.circuitBreaker)]))
             (Obj [("semantic", MedicalConfig.semantic);
                   ("timing", Obj [("profiles", Obj [
                      ("balanced", Obj [("urgent", Num 2000);
                                        ("simple", str "3000");
                                        ("complex", Num 4000)])])]);
                   ("buffer", MedicalConfig.buffer);
                   ("circuitBreaker", MedicalConfig.circuitBreaker)])
             "balanced" "simple");
      [vm_compute; reflexivity | vm_compute; reflexivity | reflexivity
      | vm_compute; set_solver | set_solver | reflexivity].
Defined.

(** X7: a loaded configuration with a [buffer] section whose [ttl] or
    [maxSize] is not a positive number never passes: the run ends with
    status 1. *)
Theorem invalid_buffer_fails (w : World) (cfg : value) (field : string) :
  existsSync w (configPath w) = true ->
  require w (configPath w) = Ok cfg ->
  truthy (at_path cfg ["buffer"]) = true ->
  field ∈ ["ttl"; "maxSize"] ->
  positive_number (at_path cfg ["buffer"; field]) = false ->
  fst (main w) = 1%Z.
Proof.
  intros Hex Hreq Htruthy Hfield Hbad.
  destruct (at_path_truthy _ _ _ Htruthy) as (buffer & Hbuffer & Hb2).
  cbn [at_path] in Hb2, Hbad. rewrite Hbuffer in Hbad.
  apply failed_configuration_exits. unfold validateConfiguration.
  apply fails_after_check. rewrite Hex. cbn [negb].
  apply fails_try_catch; [|intros e; apply fails_handler].
  rewrite Hreq. apply fot_bind_lift. intros ? [= <-].
  do 7 fot_skip.
  rewrite Hbuffer. apply fot_bind_lift. intros ? [= <-].
  rewrite Hb2. cbn [when].
  apply fot_bind_lift. intros ttl Httl.
  apply elem_of_cons in Hfield as [->|Hfield].
  - rewrite Httl in Hbad. rewrite Hbad.
    apply fot_bind_l; [apply fot_check_false | intros _; grows_walk].
  - apply elem_of_cons in Hfield as [->|Hfield]; [|inversion Hfield].
    apply fot_bind_r; [apply grows_check | intros _].
    apply fot_bind_lift. intros maxSize Hmax.
    rewrite Hmax in Hbad. rewrite Hbad.
    apply fot_bind_l; [apply fot_check_false | intros _; apply grows_ret].
Qed.

Lemma invalid_buffer_fails_witness :
  let cfg :=
    Obj [("semantic", MedicalConfig.semantic);
         ("timing", MedicalConfig.timing);
         ("buffer", Obj [("ttl", Num 300); ("maxSize", Num 0)]);
         ("circuitBreaker", MedicalConfig.circuitBreaker)] in
  let w := Fixture.project EnvExample.environment cfg in
  positive_number (at_path cfg ["buffer"; "maxSize"]) = false
  /\ fst (main w) = 1%Z.
Proof.
  split.
  - reflexivity.
  - apply (invalid_buffer_fails
             (Fixture.project EnvExample.environment
                (Obj [("semantic", MedicalConfig.semantic);
                      ("timing", MedicalConfig.timing);
                      ("buffer", Obj [("ttl", Num 300); ("maxSize", Num 0)]);
                      ("circuitBreaker", MedicalConfig.circuitBreaker)]))
             (Obj [("semantic", MedicalConfig.semantic);
                   ("timing", MedicalConfig.timing);
                   ("buffer", Obj [("ttl", Num 300); ("maxSize", Num 0)]);
                   ("circuitBreaker", MedicalConfig.circuitBreaker)])
             "maxSize");
      [vm_compute; reflexivity | vm_compute; reflexivity | reflexivity
      | set_solver | reflexivity].
Defined.

(** *** A configuration that passes *)

Lemma runs_forEach_pass {A} (l : list A) (f : A -> M unit) c :
  (forall x, x ∈ l -> runs (f x) (Ok tt) [] [] c c) ->
  runs (forEach l f) (Ok tt) [] [] (length l * c) (length l * c).
Proof.
  unfold forEach. generalize 0%nat.
  induction l as [|x l IH]; intros i Hf; cbn [forEach_from length Nat.mul].
  - apply runs_ret.
  - eapply runs_eq;
      [eapply runs_bind;
        [apply Hf; left | apply IH; intros y Hy; apply Hf; right; exact Hy]
      | reflexivity | reflexivity | reflexivity | reflexivity].
Qed.

Lemma runs_compile_each_valid w items valid index :
  (forall p, p ∈ items -> RegExp_error w p = None) ->
  runs (compile_each w index items valid) (Ok valid) [] [] 0 0.
Proof.
  revert index. induction items as [|p items IH]; intros index Hall;
    cbn [compile_each].
  - apply runs_ret.
  - rewrite (Hall p) by left. apply IH. intros q Hq. apply Hall. right.
    exact Hq.
Qed.

Lemma runs_check_pass_return msg isWarning :
  runs (check true msg isWarning ;; ret tt) (Ok tt) [] [] 1 1.
Proof.
  eapply runs_eq;
    [eapply runs_bind; [apply runs_check_true | apply runs_ret]
    | reflexivity | reflexivity | reflexivity | reflexivity].
Qed.

Lemma at_path_positive v k path :
  positive_number (at_path v (k :: path)) = true ->
  exists x, get v k = Ok x /\ positive_number (at_path x path) = true.
Proof.
  cbn [at_path]. destruct (get v k) as [x|e]; [eauto | discriminate].
Qed.

Lemma positive_defined v : positive_number v = true -> v <> Undefined.
Proof. intros H ->. discriminate H. Qed.

Lemma keys_truthy v : keys v <> [] -> truthy v = true.
Proof.
  destruct v as [| | | | t | | |]; cbn; try congruence.
  destruct t; cbn; [congruence | reflexivity].
Qed.

(** X8: a configuration passes the configuration phase without error or
    warning, every check passed, when its four required sections are
    present, its fragment and complete patterns are arrays and every
    fragment pattern compiles, it has at least one timing profile and
    every profile gives positive numbers for [urgent], [simple] and
    [complex], and [buffer.ttl] and [buffer.maxSize] are positive
    numbers.  The phase makes eleven checks and three more for each
    profile. *)
Theorem valid_configuration_passes (w : World) (cfg : value)
    (items citems : list value) :
  existsSync w (configPath w) = true ->
  require w (configPath w) = Ok cfg ->
  (forall section, section ∈ requiredSections ->
                   truthy (at_path cfg [section]) = true) ->
  at_path cfg ["semantic"; "patterns"; "fragments"] = Arr items ->
  at_path cfg ["semantic"; "patterns"; "complete"] = Arr citems ->
  (forall p, p ∈ items -> RegExp_error w p = None) ->
  keys (at_path cfg ["timing"; "profiles"]) <> [] ->
  (forall name class,
     name ∈ keys (at_path cfg ["timing"; "profiles"]) ->
     class ∈ ["urgent"; "simple"; "complex"] ->
     positive_number (at_path cfg ["timing"; "profiles"; name; class])
     = true) ->
  positive_number (at_path cfg ["buffer"; "ttl"]) = true ->
  positive_number (at_path cfg ["buffer"; "maxSize"]) = true ->
  let n := (11 + 3 * length (keys (at_path cfg ["timing"; "profiles"])))%nat in
  runs (validateConfiguration w) (Ok tt) [] [] n n.
Proof.
  intros Hex Hreq Hsections Hfrag Hcomplete Hcompile Hkeys Hprofiles
    Httl Hmax. cbv zeta.
  (* the semantic section *)
  apply at_path_step in Hfrag as (sem & Hsem & Hfrag).
  apply at_path_step in Hfrag as (pats & Hpats & Hfrag).
  apply at_path_step in Hfrag as (frags & Hfrags & Hfrag).
  cbn [at_path] in Hfrag. subst frags.
  cbn [at_path] in Hcomplete. rewrite Hsem, Hpats in Hcomplete.
  destruct (get pats "complete") as [complete|] eqn:Hcomp;
    [|discriminate Hcomplete].
  destruct (get_named _ _ _ Hfrags) as [pp ->];
    [discriminate | reflexivity | reflexivity |].
  destruct (get_named _ _ _ Hpats) as [sp ->];
    [discriminate | reflexivity | reflexivity |].
  (* the timing section *)
  pose proof (keys_truthy _ Hkeys) as Htp.
  destruct (at_path_truthy _ _ _ Htp) as (timing & Htiming & Ht2).
  destruct (at_path_truthy _ _ _ Ht2) as (profiles & Hprof & Ht3).
  cbn [at_path] in Ht3, Hkeys, Hprofiles |- *.
  rewrite Htiming in Hkeys, Hprofiles |- *.
  rewrite Hprof in Hkeys, Hprofiles |- *.
  assert (Htt : truthy timing = true).
  { destruct (get_named _ _ _ Hprof) as [ps ->];
      [apply truthy_defined; exact Ht3 | reflexivity | reflexivity
      | reflexivity]. }
  (* the buffer section *)
  destruct (at_path_positive _ _ _ Httl) as (buffer & Hbuffer & Httl2).
  destruct (at_path_positive _ _ _ Httl2) as (ttl & Hgetttl & Httl3).
  cbn [at_path] in Httl3, Hmax. rewrite Hbuffer in Hmax.
  destruct (get buffer "maxSize") as [maxSize|] eqn:Hgetmax;
    [|discriminate Hmax].
  assert (Hbt : truthy buffer = true).
  { destruct (get_named _ _ _ Hgetttl) as [ps ->];
      [apply positive_defined; exact Httl3 | reflexivity | reflexivity
      | reflexivity]. }
  unfold validateConfiguration. rewrite Hex, Hreq. cbn [negb].
  eapply runs_eq.
  - eapply runs_bind; [apply runs_check_true|]; cbv beta.
    apply runs_try.
    eapply runs_bind; [apply runs_lift|]; cbv beta.
    eapply runs_bind.
    { apply runs_forEach_pass with (c := 1%nat). intros section Hsec.
      specialize (Hsections section Hsec). cbn [at_path] in Hsections.
      destruct (get cfg section) as [v|e]; [|discriminate Hsections].
      eapply runs_eq;
        [eapply runs_bind; [apply runs_lift|]; cbv beta; rewrite Hsections;
         apply runs_check_pass_return
        | reflexivity | reflexivity | reflexivity | reflexivity]. }
    rewrite Hsem. eapply runs_bind; [apply runs_lift|]; cbv beta.
    rewrite Hpats. unfold and_then at 1.
    cbn [truthy]. eapply runs_bind; [apply runs_lift|]; cbv beta.
    eapply runs_bind.
    { cbn [when]. eapply runs_bind; [apply runs_lift|]; cbv beta.
      rewrite Hfrags. eapply runs_bind; [apply runs_lift|]; cbv beta.
      cbn [is_array]. eapply runs_bind; [apply runs_check_true|]; cbv beta.
      rewrite Hcomp. eapply runs_bind; [apply runs_lift|]; cbv beta.
      rewrite Hcomplete. cbn [is_array].
      eapply runs_bind; [apply runs_check_true|]; cbv beta.
      cbn [as_array]. eapply runs_bind; [apply runs_lift|]; cbv beta.
      eapply runs_bind; [apply runs_compile_each_valid; exact Hcompile|];
        cbv beta.
      apply runs_check_pass_return. }
    rewrite Htiming. eapply runs_bind; [apply runs_lift|]; cbv beta.
    rewrite Hprof. unfold and_then. rewrite Htt, Ht3.
    eapply runs_bind; [apply runs_lift|]; cbv beta.
    eapply runs_bind.
    { cbn [when]. eapply runs_bind; [apply runs_lift|]; cbv beta.
      replace (0 <? length (keys profiles))%nat with true
        by (symmetry; apply Nat.ltb_lt; destruct (keys profiles);
            [congruence | cbn; lia]).
      eapply runs_bind; [apply runs_check_true|]; cbv beta.
      apply runs_forEach_pass with (c := 3%nat). intros name Hname.
      pose proof (Hprofiles name "urgent" Hname ltac:(left)) as Hu.
      destruct (get profiles name) as [profile|] eqn:Hprofile;
        [clear Hu | discriminate Hu].
      eapply runs_eq;
        [eapply runs_bind; [apply runs_lift|]; cbv beta;
         apply (runs_forEach_pass _ _ 1%nat); intros class Hclass;
         specialize (Hprofiles name class Hname Hclass);
         rewrite Hprofile in Hprofiles;
         destruct (get profile class) as [t|e]; [|discriminate Hprofiles];
         eapply runs_eq;
           [eapply runs_bind; [apply runs_lift|]; cbv beta; rewrite Hprofiles;
            apply runs_check_pass_return
           | reflexivity | reflexivity | reflexivity | reflexivity]
        | reflexivity | reflexivity | reflexivity | reflexivity]. }
    rewrite Hbuffer. eapply runs_bind; [apply runs_lift|]; cbv beta.
    rewrite Hbt. cbn [when].
    rewrite Hgetttl. eapply runs_bind; [apply runs_lift|]; cbv beta.
    rewrite Httl3. eapply runs_bind; [apply runs_check_true|]; cbv beta.
    rewrite Hgetmax. eapply runs_bind; [apply runs_lift|]; cbv beta.
    rewrite Hmax. apply runs_check_pass_return.
  - reflexivity.
  - reflexivity.
  - cbn [length requiredSections Nat.mul Nat.add]. lia.
  - cbn [length requiredSections Nat.mul Nat.add]. lia.
Qed.

Lemma valid_configuration_passes_witness :
  existsSync Fixture.medical_project (configPath Fixture.medical_project)
  = true
  /\ runs (validateConfiguration Fixture.medical_project) (Ok tt) [] []
          20 20.
Proof.
  split; [reflexivity|].
  refine (valid_configuration_passes Fixture.medical_project
            (MedicalConfig.exports EnvExample.environment)
            (SemanticAnalyzer.pattern_list
               (MedicalConfig.exports EnvExample.environment) "fragments")
            (SemanticAnalyzer.pattern_list
               (MedicalConfig.exports EnvExample.environment) "complete")
            _ _ _ _ _ _ _ _ _ _).
  - reflexivity.
  - vm_compute. reflexivity.
  - intros section Hsec. unfold requiredSections in Hsec.
    repeat (apply elem_of_cons in Hsec as [->|Hsec];
            [vm_compute; reflexivity|]).
    inversion Hsec.
  - reflexivity.
  - reflexivity.
  - intros p Hp. cbn in Hp.
    repeat (apply elem_of_cons in Hp as [->|Hp]; [reflexivity|]).
    inversion Hp.
  - vm_compute. discriminate.
  - intros name class Hname Hclass.
    assert (Hn : name ∈ ["aggressive"; "balanced"; "conservative"])
      by exact Hname.
    clear Hname.
    repeat (apply elem_of_cons in Hn as [->|Hn];
            [repeat (apply elem_of_cons in Hclass as [->|Hclass];
                     [vm_compute; reflexivity|]);
             inversion Hclass|]).
    inversion Hn.
  - reflexivity.
  - reflexivity.
Defined.

End ConfigurationFacts.

(** ** The template and dependency phases *)

Section TemplateFacts.
Import Validator Run Outcome.
Local Open Scope validator_scope.

(** X9: when the templates directory or the core template in it is
    missing, the template phase records exactly that one error and reads no
    file: the outcome does not depend on what the template would hold. *)
Theorem missing_template_files (w : World) :
  existsSync w (templatesDir w) && existsSync w (coreTemplate w) = false ->
  runs (validateTemplates w) (Ok tt)
       [if existsSync w (templatesDir w)
        then utf16 "Core buffer template (buffer-core.json) not found"
        else utf16 "Templates directory not found"]
       []
       (if existsSync w (templatesDir w) then 2 else 1)
       (if existsSync w (templatesDir w) then 1 else 0).
Proof.
  intros Hex. unfold validateTemplates.
  destruct (existsSync w (templatesDir w)); cbn [negb andb] in *.
  - rewrite Hex. cbn [when].
    eapply runs_eq;
      [eapply runs_bind; [apply runs_check_true|];
       eapply runs_bind; [apply runs_error | apply runs_ret]
      | reflexivity | reflexivity | reflexivity | reflexivity].
  - eapply runs_eq;
      [eapply runs_bind; [apply runs_error | apply runs_ret]
      | reflexivity | reflexivity | reflexivity | reflexivity].
Qed.

Lemma missing_template_files_witness :
  runs (validateTemplates Fixture.empty_directory) (Ok tt)
       [utf16 "Templates directory not found"] [] 1 0.
Proof.
  pose proof (missing_template_files Fixture.empty_directory eq_refl) as H.
  assert (existsSync Fixture.empty_directory
            (templatesDir Fixture.empty_directory) = false) as E
    by reflexivity.
  rewrite E in H. exact H.
Defined.

Lemma some_includes_strings (names : list (list N)) needle :
  some_includes (map Str names) needle
  = Ok (existsb (fun t => includes (lower t) needle) names).
Proof.
  induction names as [|t names IH]; cbn [map some_includes existsb].
  - reflexivity.
  - destruct (includes (lower t) needle); [reflexivity | exact IH].
Qed.

Lemma runs_check_warning_return c msg :
  runs (check c msg true ;; ret tt) (Ok tt) []
       (if c then [] else [msg]) 1 (if c then 1 else 0).
Proof.
  destruct c;
    (eapply runs_eq;
      [eapply runs_bind;
        [first [apply runs_check_true | apply runs_warning] | apply runs_ret]
      | reflexivity | reflexivity | reflexivity | reflexivity]).
Qed.

Lemma runs_forEach_warnings {A} (l : list A) (f : A -> M unit)
    (ok : A -> bool) (msg : A -> list N) :
  (forall x, runs (f x) (Ok tt) [] (if ok x then [] else [msg x]) 1
                  (if ok x then 1 else 0)) ->
  runs (forEach l f) (Ok tt) []
       (flat_map (fun x => if ok x then [] else [msg x]) l)
       (length l) (length (List.filter ok l)).
Proof.
  intros Hf. unfold forEach. generalize 0%nat.
  induction l as [|x l IH]; intros i;
    cbn [forEach_from flat_map length List.filter].
  - apply runs_ret.
  - eapply runs_eq; [eapply runs_bind; [apply Hf | apply IH] | | | |];
      try reflexivity.
    destruct (ok x); cbn [length]; lia.
Qed.

(** X10: for a template whose [nodes] is an array of nodes with string
    names and whose [connections] is an object, the template phase records
    no error; it warns once for each of [Semantic Analyzer], [Smart
    Orchestrator] and [Buffer Manager] that is not contained, without
    regard to case, in the name of some node, and for nothing else. *)
Theorem template_nodes_only_warn (w : World) (template connections : value)
    (nodes : list value) (names : list (list N)) :
  existsSync w (templatesDir w) = true ->
  existsSync w (coreTemplate w) = true ->
  readJSON w (coreTemplate w) = Ok template ->
  get template "nodes" = Ok (Arr nodes) ->
  get template "connections" = Ok connections ->
  truthy connections && typeof_object connections = true ->
  map_result node_name nodes = Ok (map Str names) ->
  let found nodeName :=
    existsb (fun t => includes (lower t) (lower (utf16 nodeName))) names in
  runs (validateTemplates w) (Ok tt) []
       (flat_map (fun nodeName =>
                    if found nodeName then []
                    else [utf16 "Missing required node: " ++ utf16 nodeName])
                 requiredNodes)
       7 (4 + length (List.filter found requiredNodes)).
Proof.
  intros Hdir Hcore Hread Hnodes Hconn Hobj Hnames found.
  unfold validateTemplates. rewrite Hdir, Hcore, Hread. cbn [negb when].
  eapply runs_eq.
  - eapply runs_bind; [apply runs_check_true|]; cbv beta.
    eapply runs_bind; [apply runs_check_true|]; cbv beta.
    apply runs_try.
    eapply runs_bind; [apply runs_lift|]; cbv beta.
    rewrite Hnodes. eapply runs_bind; [apply runs_lift|]; cbv beta.
    cbn [get String.eqb Ascii.eqb Bool.eqb].
    eapply runs_bind; [apply runs_lift|]; cbv beta.
    cbn [truthy is_array andb].
    eapply runs_bind; [apply runs_check_true|]; cbv beta.
    rewrite Hconn. eapply runs_bind; [apply runs_lift|]; cbv beta.
    rewrite Hobj. eapply runs_bind; [apply runs_check_true|]; cbv beta.
    cbn [as_array]. eapply runs_bind; [apply runs_lift|]; cbv beta.
    rewrite Hnames. eapply runs_bind; [apply runs_lift|]; cbv beta.
    apply (runs_forEach_warnings _ _ found
             (fun nodeName => utf16 "Missing required node: " ++ utf16 nodeName)).
    intros nodeName. rewrite some_includes_strings.
    eapply runs_eq;
      [eapply runs_bind; [apply runs_lift|]; cbv beta;
       apply runs_check_warning_return
      | reflexivity | reflexivity | reflexivity | reflexivity].
  - reflexivity.
  - reflexivity.
  - reflexivity.
  - reflexivity.
Qed.

Lemma template_nodes_only_warn_witness :
  runs (validateTemplates Fixture.partial_project) (Ok tt) []
       [utf16 "Missing required node: " ++ utf16 "Smart Orchestrator"] 7 6.
Proof.
  pose proof
    (template_nodes_only_warn Fixture.partial_project Fixture.partial_template
       (Obj [])
       [Obj [("name", str "semantic analyzer v2")];
        Obj [("id", str "BUFFER MANAGER")]]
       [utf16 "semantic analyzer v2"; utf16 "BUFFER MANAGER"]
       eq_refl eq_refl
       ltac:(vm_compute; reflexivity) ltac:(vm_compute; reflexivity)
       ltac:(vm_compute; reflexivity) eq_refl
       ltac:(vm_compute; reflexivity)) as H.
  eapply runs_eq; [exact H | reflexivity | | reflexivity | ];
    vm_compute; reflexivity.
Defined.

Lemma get_defined v k :
  v <> Undefined -> v <> Null -> exists x, get v k = Ok x.
Proof.
  intros Hu Hn. destruct v; try congruence; cbn [get]; eauto;
    destruct (String.eqb k "length"); eauto.
Qed.

Lemma as_array_not_array v method :
  v <> Undefined -> v <> Null -> is_array v = false ->
  as_array v method = Throw (utf16 (method +:+ " is not a function")).
Proof.
  intros Hu Hn Ha. destruct v; try congruence; try reflexivity.
  discriminate Ha.
Qed.

Lemma runs_check_error c msg :
  runs (check c msg false) (Ok c) (if c then [] else [msg]) []
       1 (if c then 1 else 0).
Proof. destruct c; [apply runs_check_true | apply runs_error]. Qed.

(** X11: a core template that has no [nodes] at all is reported as a
    parsing failure, with the message of the [TypeError], and not as an
    invalid structure: reading [template.nodes.length] for the success
    message throws before the structure check is made. *)
Theorem template_without_nodes (w : World) (template : value) :
  existsSync w (templatesDir w) = true ->
  existsSync w (coreTemplate w) = true ->
  readJSON w (coreTemplate w) = Ok template ->
  get template "nodes" = Ok Undefined ->
  exists message,
    runs (validateTemplates w) (Ok tt)
         [utf16 "Template parsing failed: " ++ message] [] 3 2.
Proof.
  intros Hdir Hcore Hread Hnodes. exists (type_error "undefined").
  unfold validateTemplates. rewrite Hdir, Hcore, Hread. cbn [negb when].
  eapply runs_eq.
  - eapply runs_bind; [apply runs_check_true|]; cbv beta.
    eapply runs_bind; [apply runs_check_true|]; cbv beta.
    eapply runs_catch.
    + eapply runs_bind; [apply runs_lift|]; cbv beta.
      rewrite Hnodes. eapply runs_bind; [apply runs_lift|]; cbv beta.
      cbn [get]. apply runs_bind_throw, runs_lift.
    + apply runs_error_then_return.
  - reflexivity.
  - reflexivity.
  - reflexivity.
  - reflexivity.
Qed.

Lemma template_without_nodes_witness :
  exists message,
    runs (validateTemplates
            (Fixture.with_files Fixture.medical_project
               (Obj [("connections", Obj [])]) Fixture.package))
         (Ok tt)
         [utf16 "Template parsing failed: " ++ message] [] 3 2.
Proof.
  apply (template_without_nodes
           (Fixture.with_files Fixture.medical_project
              (Obj [("connections", Obj [])]) Fixture.package)
           (Obj [("connections", Obj [])])).
  - reflexivity.
  - reflexivity.
  - vm_compute; reflexivity.
  - reflexivity.
Defined.

(** X12: when [template.nodes] is there but is not an array, the template
    phase records [Template structure is invalid] and then, because
    [template.nodes.map] is not a function, a parsing failure as well; the
    required nodes are never looked for, so no warning is given. *)
Theorem template_nodes_not_array (w : World) (template nodes connections : value) :
  existsSync w (templatesDir w) = true ->
  existsSync w (coreTemplate w) = true ->
  readJSON w (coreTemplate w) = Ok template ->
  get template "nodes" = Ok nodes ->
  nodes <> Undefined -> nodes <> Null -> is_array nodes = false ->
  get template "connections" = Ok connections ->
  let connected := truthy connections && typeof_object connections in
  runs (validateTemplates w) (Ok tt)
       ([utf16 "Template structure is invalid"]
        ++ (if connected then []
            else [utf16 "Template connections are missing"])
        ++ [utf16 "Template parsing failed: "
            ++ utf16 ("template.nodes.map" +:+ " is not a function")])
       [] 5 (if connected then 3 else 2).
Proof.
  intros Hdir Hcore Hread Hnodes Hu Hn Ha Hconn connected.
  destruct (get_defined nodes "length" Hu Hn) as [len Hlen].
  unfold validateTemplates. rewrite Hdir, Hcore, Hread. cbn [negb when].
  eapply runs_eq.
  - eapply runs_bind; [apply runs_check_true|]; cbv beta.
    eapply runs_bind; [apply runs_check_true|]; cbv beta.
    eapply runs_catch.
    + eapply runs_bind; [apply runs_lift|]; cbv beta.
      rewrite Hnodes. eapply runs_bind; [apply runs_lift|]; cbv beta.
      rewrite Hlen. eapply runs_bind; [apply runs_lift|]; cbv beta.
      rewrite Ha, andb_false_r.
      eapply runs_bind; [apply runs_error|]; cbv beta.
      rewrite Hconn. eapply runs_bind; [apply runs_lift|]; cbv beta.
      eapply runs_bind; [apply runs_check_error|]; cbv beta.
      rewrite (as_array_not_array nodes _ Hu Hn Ha).
      apply runs_bind_throw, runs_lift.
    + apply runs_error_then_return.
  - fold connected. destruct connected; reflexivity.
  - reflexivity.
  - fold connected. destruct connected; reflexivity.
  - fold connected. destruct connected; reflexivity.
Qed.

Lemma template_nodes_not_array_witness :
  runs (validateTemplates Fixture.keyed_template_project) (Ok tt)
       ([utf16 "Template structure is invalid"]
        ++ [utf16 "Template connections are missing"]
        ++ [utf16 "Template parsing failed: "
            ++ utf16 ("template.nodes.map" +:+ " is not a function")])
       [] 5 2.
Proof.
  apply (template_nodes_not_array Fixture.keyed_template_project
           Fixture.keyed_template
           (Obj [("Semantic Analyzer", Obj [("type", str "n8n-nodes-base.code")])])
           Undefined).
  - reflexivity.
  - reflexivity.
  - vm_compute; reflexivity.
  - vm_compute; reflexivity.
  - discriminate.
  - discriminate.
  - reflexivity.
  - vm_compute; reflexivity.
Defined.

End TemplateFacts.

Section DependencyFacts.
Import Validator Run Outcome.
Local Open Scope validator_scope.

Lemma runs_lift_bind {A B} (a : A) (k : A -> M B) r es ws n p :
  runs (k a) r es ws n p -> runs (bind (lift (Ok a)) k) r es ws n p.
Proof. intros H s. unfold bind, lift. apply H. Qed.

(** X13: without a [package.json] the dependency phase records the one
    error [package.json not found]; it reads nothing and does not look for
    [node_modules]. *)
Theorem missing_package_json (w : World) :
  existsSync w (packagePath w) = false ->
  runs (validateDependencies w) (Ok tt)
       [utf16 "package.json not found"] [] 1 0.
Proof.
  intros Hex. unfold validateDependencies. rewrite Hex. cbn [negb].
  eapply runs_eq;
    [eapply runs_bind; [apply runs_error | apply runs_ret]
    | reflexivity | reflexivity | reflexivity | reflexivity].
Qed.

Lemma missing_package_json_witness :
  runs (validateDependencies Fixture.empty_directory) (Ok tt)
       [utf16 "package.json not found"] [] 1 0.
Proof. apply (missing_package_json Fixture.empty_directory). reflexivity. Defined.

(** X14: a [package.json] that cannot be parsed, or that holds [null],
    gives the one error [package.json parsing failed: ...] with the message
    of what was thrown; no dependency is checked and no warning given. *)
Theorem unreadable_package_json (w : World) (message : list N) :
  existsSync w (packagePath w) = true ->
  readJSON w (packagePath w) = Throw message
  \/ (exists pkg, readJSON w (packagePath w) = Ok pkg
                  /\ get pkg "dependencies" = Throw message) ->
  runs (validateDependencies w) (Ok tt)
       [utf16 "package.json parsing failed: " ++ message] [] 2 1.
Proof.
  intros Hex Hread. unfold validateDependencies. rewrite Hex. cbn [negb].
  eapply runs_eq.
  - eapply runs_bind; [apply runs_check_true|]; cbv beta.
    eapply runs_catch; [|apply runs_error_then_return].
    destruct Hread as [-> | (pkg & -> & Hdeps)].
    + apply runs_bind_throw, runs_lift.
    + apply runs_lift_bind.
      rewrite Hdeps. apply runs_bind_throw, runs_lift.
  - reflexivity.
  - reflexivity.
  - reflexivity.
  - reflexivity.
Qed.

Lemma unreadable_package_json_witness :
  runs (validateDependencies Fixture.null_files_project) (Ok tt)
       [utf16 "package.json parsing failed: " ++ type_error "null"] [] 2 1.
Proof.
  apply (unreadable_package_json Fixture.null_files_project).
  - reflexivity.
  - right. exists Null. split; [vm_compute; reflexivity | reflexivity].
Defined.

(** X15: once [package.json] holds an object, the dependency phase records
    no error whatever is missing.  It warns for each of [ioredis] and
    [dotenv] that has no truthy entry in the spread of [dependencies] and
    [devDependencies], where an entry of [devDependencies] hides the one of
    [dependencies] of the same name, and it warns when [node_modules] does
    not exist. *)
Theorem dependencies_only_warn (w : World) (pkg deps devDeps : value) :
  existsSync w (packagePath w) = true ->
  readJSON w (packagePath w) = Ok pkg ->
  get pkg "dependencies" = Ok deps ->
  get pkg "devDependencies" = Ok devDeps ->
  let installed dep :=
    truthy (at_path (Obj (own_props deps ++ own_props devDeps)) [dep]) in
  let modules := existsSync w (nodeModulesPath w) in
  runs (validateDependencies w) (Ok tt) []
       (flat_map (fun dep =>
                    if installed dep then []
                    else [utf16 "Missing dependency: " ++ utf16 dep])
                 requiredDeps
        ++ (if modules then []
            else [utf16 "Dependencies not installed (run: npm install)"]))
       4
       (1 + length (List.filter installed requiredDeps)
        + (if modules then 1 else 0)).
Proof.
  intros Hex Hread Hdeps Hdev installed modules.
  unfold validateDependencies. rewrite Hex, Hread. cbn [negb].
  eapply runs_eq.
  - eapply runs_bind; [apply runs_check_true|]; cbv beta.
    apply runs_try.
    eapply runs_bind; [apply runs_lift|]; cbv beta.
    rewrite Hdeps. eapply runs_bind; [apply runs_lift|]; cbv beta.
    rewrite Hdev. eapply runs_bind; [apply runs_lift|]; cbv beta zeta.
    eapply runs_bind.
    + apply (runs_forEach_warnings _ _ installed
               (fun dep => utf16 "Missing dependency: " ++ utf16 dep)).
      intros dep.
      eapply runs_eq;
        [eapply runs_bind; [apply runs_lift|]; cbv beta;
         apply runs_check_warning_return
        | reflexivity | reflexivity | reflexivity | reflexivity].
    + cbv beta. apply runs_check_warning_return.
  - reflexivity.
  - reflexivity.
  - reflexivity.
  - fold modules. cbn [length requiredDeps]. lia.
Qed.

Lemma dependencies_only_warn_witness :
  runs (validateDependencies Fixture.partial_project) (Ok tt) []
       ([utf16 "Missing dependency: " ++ utf16 "dotenv"] ++ []) 4 3.
Proof.
  pose proof
    (dependencies_only_warn Fixture.partial_project Fixture.partial_package
       (Obj [("express", str "^4.18.2")]) (Obj [("ioredis", str "^5.3.2")])
       eq_refl ltac:(vm_compute; reflexivity) ltac:(vm_compute; reflexivity)
       ltac:(vm_compute; reflexivity)) as H.
  eapply runs_eq; [exact H | reflexivity | | reflexivity | ];
    vm_compute; reflexivity.
Defined.

End DependencyFacts.

(** ** The counters *)

Section Kept.
Import Validator Run Outcome.
Local Open Scope validator_scope.

Variable I : state -> Prop.

Lemma keeps_ret {A} (a : A) : keeps I (ret a).
Proof. intros s H. exact H. Qed.

Lemma keeps_lift {A} (r : result A) : keeps I (lift r).
Proof. intros s H. exact H. Qed.

Lemma keeps_throw {A} e : keeps I (@throw A e).
Proof. intros s H. exact H. Qed.

Lemma keeps_bind {A B} (m : M A) (k : A -> M B) :
  keeps I m -> (forall a, keeps I (k a)) -> keeps I (bind m k).
Proof.
  intros Hm Hk s Hs. unfold bind. specialize (Hm s Hs).
  destruct (m s) as [[a|e] s']; cbn [snd] in *; [apply Hk|]; exact Hm.
Qed.

(** The continuation of a step that cannot change the validator may use
    what the step returned. *)
Lemma keeps_bind_lift {A B} (r : result A) (k : A -> M B) :
  (forall a, r = Ok a -> keeps I (k a)) -> keeps I (bind (lift r) k).
Proof.
  intros Hk s Hs. unfold bind, lift.
  destruct r as [a|e]; cbn [snd]; [apply (Hk a eq_refl)|]; exact Hs.
Qed.

Lemma keeps_try_catch {A} (body : M A) (handler : list N -> M A) :
  keeps I body -> (forall e, keeps I (handler e)) ->
  keeps I (try_catch body handler).
Proof.
  intros Hb Hh s Hs. unfold try_catch. specialize (Hb s Hs).
  destruct (body s) as [[a|e] s']; cbn [snd] in *; [|apply Hh]; exact Hb.
Qed.

Lemma keeps_forEach_from {A} (l : list A) (f : A -> nat -> M unit) i :
  (forall x j, keeps I (f x j)) -> keeps I (forEach_from i l f).
Proof.
  intros Hf. revert i.
  induction l as [|x l IH]; intros i; cbn [forEach_from].
  - apply keeps_ret.
  - apply keeps_bind; [apply Hf | intros _; apply IH].
Qed.

Lemma keeps_forEach {A} (l : list A) (f : A -> M unit) :
  (forall x, keeps I (f x)) -> keeps I (forEach l f).
Proof. intros Hf. apply keeps_forEach_from. intros x _. apply Hf. Qed.

Lemma keeps_when b (m : M unit) : keeps I m -> keeps I (when b m).
Proof. intros Hm. destruct b; [exact Hm | apply keeps_ret]. Qed.

(** What a first step establishes, the steps after it keep. *)
Lemma keeps_after {A B} (m : M A) (k : A -> M B) :
  (forall s, I (snd (m s))) -> (forall a, keeps I (k a)) ->
  forall s, I (snd (bind m k s)).
Proof.
  intros Hm Hk s. unfold bind. specialize (Hm s).
  destruct (m s) as [[a|e] s']; cbn [snd] in *; [apply Hk|]; exact Hm.
Qed.

End Kept.

Ltac keeps_walk :=
  repeat first
    [ apply keeps_ret | apply keeps_lift | apply keeps_throw
    | match goal with
      | H : forall c msg b, Outcome.keeps _ (Validator.check c msg b)
        |- Outcome.keeps _ (Validator.check _ _ _) => apply H
      end
    | apply keeps_bind_lift; intros ? ?
    | apply keeps_bind; [|intros ?]
    | apply keeps_try_catch; [|intros ?]
    | apply keeps_forEach; intros ?
    | apply keeps_when
    | match goal with
      | |- Outcome.keeps _ (match ?x with _ => _ end) => destruct x
      end ].

Section Counters.
Import Validator Run Outcome.
Local Open Scope validator_scope.

Section Phases.
Variable I : state -> Prop.
Variable w : World.
Hypothesis I_check : forall c msg b, keeps I (check c msg b).
Hypothesis I_compile :
  forall cfg items,
    require w (configPath w) = Ok cfg ->
    at_path cfg ["semantic"; "patterns"; "fragments"] = Arr items ->
    forall index valid, keeps I (compile_each w index items valid).

Lemma validateEnvironment_keeps : keeps I (validateEnvironment w).
Proof. unfold validateEnvironment. keeps_walk. Qed.

Lemma validateRedisConnection_keeps : keeps I (validateRedisConnection w).
Proof. unfold validateRedisConnection. keeps_walk. Qed.

Lemma validateConfiguration_keeps : keeps I (validateConfiguration w).
Proof.
  unfold validateConfiguration. keeps_walk.
  match goal with
  | Hc : require w (configPath w) = Ok _ |- _ =>
    eapply I_compile; [exact Hc|]
  end.
  cbn [at_path].
  repeat match goal with
         | H : get ?v ?k = Ok _ |- context [get ?v ?k] => rewrite H
         end.
  match goal with
  | H : as_array ?v _ = Ok _ |- _ =>
    destruct v; try discriminate H; injection H as ->; reflexivity
  end.
Qed.

Lemma validateTemplates_keeps : keeps I (validateTemplates w).
Proof. unfold validateTemplates. keeps_walk. Qed.

Lemma validateDependencies_keeps : keeps I (validateDependencies w).
Proof. unfold validateDependencies. keeps_walk. Qed.

Lemma later_phases_keep :
  keeps I (validateRedisConnection w ;; validateConfiguration w ;;
           validateTemplates w ;; validateDependencies w).
Proof.
  apply keeps_bind; [apply validateRedisConnection_keeps | intros _].
  apply keeps_bind; [apply validateConfiguration_keeps | intros _].
  apply keeps_bind; [apply validateTemplates_keeps | intros _].
  apply validateDependencies_keeps.
Qed.

Lemma phases_keep : keeps I (phases w).
Proof.
  unfold phases.
  apply keeps_bind; [apply validateEnvironment_keeps | intros _].
  apply later_phases_keep.
Qed.

Lemma main_keeps : I init -> I (snd (main w)).
Proof. intros H. rewrite main_result. cbn [snd]. apply phases_keep, H. Qed.

End Phases.

Lemma bounded_check c msg b : keeps bounded (check c msg b).
Proof.
  intros s [H1 H2]. unfold bounded, check, set_passed, set_warnings,
    set_errors, set_checks.
  destruct c; [|destruct b];
    cbn [snd errors warnings checks passed]; rewrite ?length_app;
    cbn [length]; lia.
Qed.

Lemma bounded_compile_each w items index valid :
  keeps bounded (compile_each w index items valid).
Proof.
  revert index valid.
  induction items as [|pattern rest IH]; intros index valid;
    cbn [compile_each].
  - apply keeps_ret.
  - destruct (RegExp_error w pattern) as [message|]; [|apply IH].
    apply keeps_bind; [|intros _; apply IH].
    intros s [H1 H2]. unfold bounded, push_error, set_errors.
    cbn [snd errors warnings checks passed]. rewrite length_app.
    cbn [length]. lia.
Qed.

Lemma checked_check c msg b s : (0 < checks (snd (check c msg b s)))%nat.
Proof.
  unfold check, set_passed, set_warnings, set_errors, set_checks.
  destruct c; [|destruct b]; cbn [snd errors warnings checks passed]; lia.
Qed.

Lemma checked_compile_each w items index valid :
  keeps (fun s => (0 < checks s)%nat) (compile_each w index items valid).
Proof.
  revert index valid.
  induction items as [|pattern rest IH]; intros index valid;
    cbn [compile_each].
  - apply keeps_ret.
  - destruct (RegExp_error w pattern) as [message|]; [|apply IH].
    apply keeps_bind; [|intros _; apply IH].
    intros s H. exact H.
Qed.

(** X16: at the end of [main], whatever the project holds, the counters
    satisfy [passed + warnings <= checks <= passed + errors + warnings],
    and at least one check has been made, so that the success rate of the
    summary divides by a positive number and is at most 100. *)
Theorem counters_bounded (w : World) :
  bounded (snd (main w))
  /\ (0 < checks (snd (main w)))%nat
  /\ (passed (snd (main w)) <= checks (snd (main w)))%nat.
Proof.
  assert (bounded (snd (main w))) as Hb.
  { apply main_keeps.
    - apply bounded_check.
    - intros. apply bounded_compile_each.
    - unfold bounded, init. cbn. lia. }
  split; [exact Hb|]. split; [|destruct Hb; lia].
  rewrite main_result. cbn [snd].
  set (J := fun s => (0 < checks s)%nat).
  assert (forall c msg b, keeps J (check c msg b)) as Jcheck
    by (intros c msg b s _; apply checked_check).
  change (J (snd (phases w init))). unfold phases.
  apply keeps_after.
  - unfold validateEnvironment. apply keeps_after.
    + intros s. apply checked_check.
    + intros _. keeps_walk.
  - intros _. apply later_phases_keep; [exact Jcheck|].
    intros. apply checked_compile_each.
Qed.

Lemma counted_check c msg b : keeps counted (check c msg b).
Proof.
  intros s H. unfold counted, check, set_passed, set_warnings, set_errors,
    set_checks in *.
  destruct c; [|destruct b];
    cbn [snd errors warnings checks passed]; rewrite ?length_app;
    cbn [length]; lia.
Qed.

Lemma counted_compile_each w items index valid :
  (forall pattern, pattern ∈ items -> RegExp_error w pattern = None) ->
  keeps counted (compile_each w index items valid).
Proof.
  revert index valid.
  induction items as [|pattern rest IH]; intros index valid Hall;
    cbn [compile_each].
  - apply keeps_ret.
  - rewrite (Hall pattern) by left. apply IH.
    intros p Hp. apply Hall. right. exact Hp.
Qed.

(** X17: when every fragment pattern of the configuration that is loaded
    compiles, the counters add up at the end of [main]: every check has
    either passed or left one message, [checks = passed + errors +
    warnings]. *)
Theorem counters_add_up (w : World) :
  (forall cfg items,
      require w (configPath w) = Ok cfg ->
      at_path cfg ["semantic"; "patterns"; "fragments"] = Arr items ->
      forall pattern, pattern ∈ items -> RegExp_error w pattern = None) ->
  counted (snd (main w)).
Proof.
  intros Hall. apply main_keeps.
  - apply counted_check.
  - intros cfg items Hcfg Hitems index valid.
    apply counted_compile_each. exact (Hall cfg items Hcfg Hitems).
  - unfold counted, init. reflexivity.
Qed.

Lemma counters_add_up_witness : counted (snd (main Fixture.medical_project)).
Proof.
  apply (counters_add_up Fixture.medical_project).
  intros cfg items Hcfg Hitems pattern Hin.
  vm_compute in Hcfg. injection Hcfg as <-.
  vm_compute in Hitems. injection Hitems as <-.
  repeat (apply elem_of_cons in Hin as [-> | Hin]; [vm_compute; reflexivity|]).
  inversion Hin.
Defined.

End Counters.

(** ** The format of the Redis URL *)

Section Spans.
Import Regex.

Variable fl : flags.
Hypothesis no_ignoreCase : ignoreCase fl = false.
Hypothesis no_multiline : multiline fl = false.
Hypothesis no_dotAll : dotAll fl = false.
Variable input : list N.

Lemma elem_of_flat_map {A B} (f : A -> list B) (l : list A) (y : B) :
  y ∈ flat_map f l <-> exists x, x ∈ l /\ y ∈ f x.
Proof.
  rewrite list_elem_of_In, in_flat_map. setoid_rewrite list_elem_of_In.
  reflexivity.
Qed.

Lemma nth_error_lookup {A} (l : list A) (i : nat) : nth_error l i = l !! i.
Proof. revert i. induction l as [|x l IH]; intros [|i]; cbn; auto. Qed.

Lemma elem_of_step_char p i j :
  j ∈ step_char input p i
  <-> j = S i /\ exists c, input !! i = Some c /\ p c = true.
Proof.
  unfold step_char. rewrite nth_error_lookup.
  destruct (input !! i) as [c|]; [destruct (p c) eqn:Hp|].
  - rewrite list_elem_of_singleton. split; [intros ->; eauto | tauto].
  - rewrite elem_of_nil. split; [tauto|].
    intros (_ & c' & [= <-] & Hc'). congruence.
  - rewrite elem_of_nil. split; [tauto|].
    intros (_ & c' & Hc' & _). discriminate.
Qed.

Lemma elem_of_rep_star (step : nat -> list nat) p fuel i j :
  (forall i j, j ∈ step i
               <-> j = S i /\ exists c, input !! i = Some c /\ p c = true) ->
  (length input - i < fuel)%nat ->
  j ∈ rep step fuel 0 None true i <-> span input p i j.
Proof.
  intros Hstep. revert i.
  induction fuel as [|fuel IH]; intros i Hfuel; [lia|].
  cbn [rep dec_max]. cbv zeta.
  rewrite elem_of_app, elem_of_flat_map, list_elem_of_singleton.
  split.
  - intros [(x & Hx & Hj) | ->].
    + apply list_elem_of_filter in Hx as [_ Hx].
      apply Hstep in Hx as (-> & c & Hc & Hp).
      pose proof (lookup_lt_Some _ _ _ Hc) as Hlt.
      apply IH in Hj; [|lia]. destruct Hj as [Hle Hall].
      split; [lia|]. intros k Hk.
      destruct (decide (k = i)) as [->|Hne]; [eauto | apply Hall; lia].
    + split; [lia | intros k Hk; lia].
  - intros [Hle Hall].
    destruct (decide (j = i)) as [->|Hne]; [right; reflexivity | left].
    destruct (Hall i ltac:(lia)) as (c & Hc & Hp).
    pose proof (lookup_lt_Some _ _ _ Hc) as Hlt.
    exists (S i). split.
    + apply list_elem_of_filter. split; [|apply Hstep; eauto].
      rewrite (proj2 (Nat.eqb_neq (S i) i)) by lia. exact I.
    + apply IH; [lia|]. split; [lia|]. intros k Hk. apply Hall. lia.
Qed.

Lemma elem_of_ends_Seq r1 r2 i e :
  e ∈ ends fl input (Seq r1 r2) i
  <-> exists j, j ∈ ends fl input r1 i /\ e ∈ ends fl input r2 j.
Proof. cbn [ends]. apply elem_of_flat_map. Qed.

Lemma elem_of_ends_Char c i j :
  j ∈ ends fl input (Char c) i <-> j = S i /\ input !! i = Some c.
Proof.
  cbn [ends]. rewrite elem_of_step_char. unfold canon.
  rewrite no_ignoreCase. split.
  - intros (-> & x & Hx & Heq). apply N.eqb_eq in Heq as ->. auto.
  - intros (-> & Hc). split; [reflexivity|]. exists c.
    split; [exact Hc | apply N.eqb_refl].
Qed.

Lemma elem_of_ends_dots i j :
  j ∈ ends fl input (Repeat Dot 0 None true) i
  <-> span input (fun c => negb (is_line_terminator c)) i j.
Proof.
  cbn [ends]. apply elem_of_rep_star; [|lia].
  intros i' j'. rewrite elem_of_step_char, no_dotAll. reflexivity.
Qed.

Lemma elem_of_ends_digits i j :
  j ∈ ends fl input (Repeat (Class false [ItemEsc Digit false]) 1 None true) i
  <-> span input is_digit i j /\ (i < j)%nat.
Proof.
  assert (forall i j,
             j ∈ ends fl input (Class false [ItemEsc Digit false]) i
             <-> j = S i /\ exists c, input !! i = Some c /\ is_digit c = true)
    as Hstep.
  { intros i' j'. cbn [ends]. rewrite elem_of_step_char.
    unfold class_mem, canon_preimage, canon. rewrite no_ignoreCase.
    cbn [existsb item_mem esc_mem xorb].
    split; intros (-> & c & Hc & Hp); (split; [reflexivity|]); exists c;
      (split; [exact Hc|]); destruct (is_digit c); try discriminate;
      reflexivity. }
  set (step := ends fl input (Class false [ItemEsc Digit false])) in *.
  change (ends fl input (Repeat (Class false [ItemEsc Digit false])
                                1 None true) i)
    with (flat_map (rep step (S (length input)) 0 None true) (step i)).
  rewrite elem_of_flat_map. split.
  - intros (x & Hx & Hj). apply Hstep in Hx as (-> & c & Hc & Hp).
    pose proof (lookup_lt_Some _ _ _ Hc) as Hlt.
    apply (elem_of_rep_star _ is_digit) in Hj; [|exact Hstep|lia].
    destruct Hj as [Hle Hall]. split; [|lia]. split; [lia|].
    intros k Hk.
    destruct (decide (k = i)) as [->|Hne]; [eauto | apply Hall; lia].
  - intros [[Hle Hall] Hlt].
    destruct (Hall i ltac:(lia)) as (c & Hc & Hp).
    pose proof (lookup_lt_Some _ _ _ Hc) as Hlen.
    exists (S i). split; [apply Hstep; eauto|].
    apply (elem_of_rep_star _ is_digit); [exact Hstep|lia|].
    split; [lia|]. intros k Hk. apply Hall. lia.
Qed.

Lemma elem_of_ends_end i j :
  j ∈ ends fl input (Seq LineEnd Empty) i <-> j = i /\ i = length input.
Proof.
  cbn [ends]. unfold at_line_end, guard. rewrite no_multiline.
  cbn [andb]. rewrite orb_false_r.
  destruct (Nat.eqb_spec i (length input)) as [He|Hne];
    cbn [flat_map app].
  - rewrite list_elem_of_singleton. tauto.
  - rewrite elem_of_nil. tauto.
Qed.

Lemma search_anchored r fuel i :
  (1 <= i)%nat -> search fl input (Seq LineStart r) fuel i = None.
Proof.
  revert i. induction fuel as [|fuel IH]; intros i Hi; cbn [search];
    [reflexivity|].
  cbn [ends]. unfold at_line_start, guard. rewrite no_multiline.
  rewrite (proj2 (Nat.eqb_neq i 0)) by lia. cbn [orb andb flat_map].
  apply IH. lia.
Qed.

Lemma exec_anchored r :
  is_Some (exec_from fl input (Seq LineStart r) 0)
  <-> exists e, e ∈ ends fl input r 0.
Proof.
  unfold exec_from. cbn [Nat.sub search ends]. unfold at_line_start, guard.
  cbn [Nat.eqb orb flat_map]. rewrite app_nil_r.
  destruct (ends fl input r 0) as [|e l].
  - rewrite search_anchored by lia. split.
    + intros [x Hx]. discriminate.
    + intros [e He]. apply elem_of_nil in He. contradiction.
  - split; [intros _; exists e; left | intros _; eauto].
Qed.

(** A text is [host ++ c :: port] after its first [n] code units exactly
    when [c] is at a position that the code units of [host] lead up to and
    those of [port] follow. *)
Lemma span_split (p q : N -> bool) (c : N) (n : nat) :
  (exists j, span input p n j /\ input !! j = Some c
             /\ span input q (S j) (length input) /\ (S j < length input)%nat)
  <-> (n <= length input)%nat
      /\ exists host port,
           drop n input = host ++ c :: port
           /\ Forall (fun x => p x = true) host
           /\ port <> []
           /\ Forall (fun x => q x = true) port.
Proof.
  split.
  - intros (j & [Hnj Hp] & Hc & [_ Hq] & Hlt).
    split; [lia|].
    exists (take (j - n) (drop n input)), (drop (S j) input).
    split; [|split; [|split]].
    + rewrite <- (take_drop (j - n) (drop n input)) at 1. f_equal.
      rewrite drop_drop. replace (n + (j - n))%nat with j by lia.
      apply drop_S, Hc.
    + apply Forall_lookup_2. intros k x Hk.
      rewrite lookup_take in Hk.
      destruct (decide (k < j - n)%nat) as [Hlt'|]; [|discriminate].
      rewrite lookup_drop in Hk.
      destruct (Hp (n + k)%nat ltac:(lia)) as (x' & Hx' & Hpx).
      congruence.
    + intros Hnil. apply (f_equal length) in Hnil.
      rewrite length_drop in Hnil. cbn in Hnil. lia.
    + apply Forall_lookup_2. intros k x Hk. rewrite lookup_drop in Hk.
      pose proof (lookup_lt_Some _ _ _ Hk) as Hlen.
      destruct (Hq (S j + k)%nat ltac:(lia)) as (x' & Hx' & Hqx).
      congruence.
  - intros (Hn & host & port & Heq & Hp & Hne & Hq).
    assert (input = take n input ++ host ++ c :: port) as Hin
      by (rewrite <- Heq; symmetry; apply take_drop).
    assert (length (take n input) = n) as Hlen
      by (rewrite length_take; lia).
    assert (forall k, input !! (n + k)%nat = (host ++ c :: port) !! k) as Hk.
    { intros k. rewrite <- Heq, lookup_drop. reflexivity. }
    assert (length input = n + (length host + S (length port)))%nat as Hlength.
    { rewrite Hin at 1. rewrite !length_app, Hlen. cbn [length]. lia. }
    exists (n + length host)%nat. split; [|split; [|split]].
    + split; [lia|]. intros k Hk'.
      replace k with (n + (k - n))%nat by lia. rewrite Hk.
      destruct (lookup_lt_is_Some_2 host (k - n) ltac:(lia)) as [x Hx].
      exists x. split; [apply lookup_app_l_Some, Hx|].
      apply (Forall_lookup_1 _ _ _ _ Hp Hx).
    + rewrite Hk. apply list_lookup_middle. reflexivity.
    + split; [lia|]. intros k Hk'.
      replace k with (n + (length host + S (k - S (n + length host))))%nat
        by lia.
      rewrite Hk, lookup_app_r by lia.
      replace (length host + S (k - S (n + length host)) - length host)%nat
        with (S (k - S (n + length host))) by lia.
      cbn [lookup list_lookup].
      destruct (lookup_lt_is_Some_2 port (k - S (n + length host))
                  ltac:(lia)) as [x Hx].
      exists x. split; [exact Hx|].
      apply (Forall_lookup_1 _ _ _ _ Hq Hx).
    + destruct port; [congruence|]. cbn [length] in Hlength. lia.
Qed.

End Spans.

Section RedisUrlFormat.
Import Validator.

(** X18: the format check of [REDIS_URL] passes exactly the texts
    [redis://<host>:<port>] in which the host part holds no line terminator
    and the port is one or more decimal digits that end the text; the host
    part may be empty and may itself hold colons and slashes. *)
Theorem redis_url_format (url : list N) :
  Regex.test (fst redisUrlPattern) (snd redisUrlPattern) url = true
  <-> exists host port,
        url = utf16 "redis://" ++ host ++ utf16 ":" ++ port
        /\ Forall (fun c => negb (is_line_terminator c) = true) host
        /\ port <> []
        /\ Forall (fun c => is_digit c = true) port.
Proof.
  assert (utf16 "redis://" = [114; 101; 100; 105; 115; 58; 47; 47]) as ->
    by (vm_compute; reflexivity).
  assert (utf16 ":" = [58]) as -> by (vm_compute; reflexivity).
  unfold Regex.test, redisUrlPattern. cbn [fst snd].
  assert (Regex.compile "^redis:\/\/.*:\d+$" ""
          = Regex.POk
              (Regex.Seq Regex.LineStart
                 (Regex.Seq (Regex.Char 114)
                 (Regex.Seq (Regex.Char 101)
                 (Regex.Seq (Regex.Char 100)
                 (Regex.Seq (Regex.Char 105)
                 (Regex.Seq (Regex.Char 115)
                 (Regex.Seq (Regex.Char 58)
                 (Regex.Seq (Regex.Char 47)
                 (Regex.Seq (Regex.Char 47)
                 (Regex.Seq (Regex.Repeat Regex.Dot 0 None true)
                 (Regex.Seq (Regex.Char 58)
                 (Regex.Seq
                    (Regex.Repeat
                       (Regex.Class false [Regex.ItemEsc Regex.Digit false])
                       1 None true)
                    (Regex.Seq Regex.LineEnd Regex.Empty)))))))))))),
               Regex.Build_flags false false false false) []) as ->
    by (vm_compute; reflexivity).
  rewrite bool_decide_eq_true, exec_anchored by reflexivity.
  set (fl := Regex.Build_flags false false false false).
  assert (Regex.ignoreCase fl = false) as Hi by reflexivity.
  assert (Regex.multiline fl = false) as Hm by reflexivity.
  assert (Regex.dotAll fl = false) as Hd by reflexivity.
  clearbody fl.
  transitivity
    (take 8 url = [114; 101; 100; 105; 115; 58; 47; 47]
     /\ exists j,
          Regex.span url (fun c => negb (is_line_terminator c)) 8 j
          /\ url !! j = Some 58
          /\ Regex.span url is_digit (S j) (length url)
          /\ (S j < length url)%nat).
  - split.
    + intros (e & He).
      repeat (apply elem_of_ends_Seq in He as (? & Hc & He);
              apply elem_of_ends_Char in Hc as [-> ?]; [|assumption]).
      apply elem_of_ends_Seq in He as (j & Hj & He).
      apply elem_of_ends_dots in Hj; [|assumption].
      apply elem_of_ends_Seq in He as (? & Hc & He).
      apply elem_of_ends_Char in Hc as [-> Hc]; [|assumption].
      apply elem_of_ends_Seq in He as (j2 & Hj2 & He).
      apply elem_of_ends_digits in Hj2 as [Hj2 Hlt]; [|assumption].
      apply elem_of_ends_end in He as [-> ->]; [|assumption].
      split; [|eauto 10].
      do 8 (destruct url as [|? url]; [discriminate|]).
      cbn [lookup list_lookup] in *. cbn [take].
      change (take 0 url) with (@nil N). congruence.
    + intros (Hpre & j & Hj & Hc & Hj2 & Hlt).
      exists (length url).
      do 8 (destruct url as [|? url]; [discriminate|]).
      cbn [take] in Hpre. injection Hpre as -> -> -> -> -> -> -> ->.
      repeat (apply elem_of_ends_Seq; eexists; split;
              [apply elem_of_ends_Char; [assumption|]; split; reflexivity|]).
      apply elem_of_ends_Seq. exists j.
      split; [apply elem_of_ends_dots; assumption|].
      apply elem_of_ends_Seq. exists (S j).
      split; [apply elem_of_ends_Char; [assumption|]; split;
              [reflexivity | exact Hc]|].
      apply elem_of_ends_Seq. exists (length (114 :: 101 :: 100 :: 105 :: 115 :: 58 :: 47 :: 47 :: url)).
      split; [apply elem_of_ends_digits; [assumption|]; split; assumption|].
      apply elem_of_ends_end; [assumption|]. split; reflexivity.
  - rewrite span_split. split.
    + intros (Hpre & Hlen & host & port & Heq & H).
      exists host, port. split; [|exact H].
      rewrite <- (take_drop 8 url), Hpre, Heq. reflexivity.
    + intros (host & port & -> & H). split; [reflexivity|].
      split; [cbn [length app]; lia|].
      exists host, port. split; [reflexivity | exact H].
Qed.

End RedisUrlFormat.

(** ** The numeric variables *)

Section NumericVariables.
Import Validator.

Lemma digits_in_positive (rest : list N) (a : Z) :
  (0 < a)%Z ->
  exists b, digits_in dec_digit 10 (Some a) rest = Some b /\ (0 < b)%Z.
Proof.
  revert a. induction rest as [|c rest IH]; intros a Ha; cbn [digits_in].
  - eauto.
  - destruct (dec_digit c) as [d|] eqn:Hd; [|eauto].
    apply IH. unfold dec_digit in Hd.
    destruct (is_digit c); [|discriminate]. injection Hd as <-. lia.
Qed.

Lemma digits_in_nonnegative (digit : N -> option Z) (radix : Z)
    (rest : list N) (acc : option Z) (b : Z) :
  (forall c d, digit c = Some d -> (0 <= d)%Z) -> (0 <= radix)%Z ->
  (forall a, acc = Some a -> (0 <= a)%Z) ->
  digits_in digit radix acc rest = Some b -> (0 <= b)%Z.
Proof.
  intros Hdigit Hradix. revert acc.
  induction rest as [|c rest IH]; intros acc Hacc; cbn [digits_in].
  - intros ->. apply Hacc. reflexivity.
  - destruct (digit c) as [d|] eqn:Hd; [|intros ->; apply Hacc; reflexivity].
    apply IH. intros a [= <-]. specialize (Hdigit c d Hd).
    destruct acc as [a|]; [specialize (Hacc a eq_refl); nia | exact Hdigit].
Qed.

Lemma dec_digit_nonnegative c d : dec_digit c = Some d -> (0 <= d)%Z.
Proof.
  unfold dec_digit. destruct (is_digit c); [|discriminate].
  intros [= <-]. lia.
Qed.

Lemma hex_digit_nonnegative c d : hex_digit c = Some d -> (0 <= d)%Z.
Proof.
  unfold hex_digit.
  repeat match goal with
         | |- context [if ?b then _ else _] => destruct b
         end; try discriminate; intros [= <-]; lia.
Qed.

(** X19: the check of a numeric variable reads a prefix only: a value
    that begins with a digit from 1 to 9 passes whatever follows the
    digit, so that [300s] or [5 minutes] gives no warning. *)
Theorem numeric_check_reads_a_prefix (d : N) (rest : list N) :
  is_digit d = true -> d <> 48 ->
  valid_positive (d :: rest) = true.
Proof.
  intros Hd Hz. unfold is_digit in Hd.
  apply andb_true_iff in Hd as [H1 H2]. apply N.leb_le in H1, H2.
  assert (d = 49 \/ d = 50 \/ d = 51 \/ d = 52 \/ d = 53 \/ d = 54
          \/ d = 55 \/ d = 56 \/ d = 57) as Hcases by lia.
  clear H1 H2 Hz.
  assert (forall a, (0 < a)%Z ->
            match option_map (Z.mul 1)
                    (digits_in dec_digit 10 (Some a) rest) with
            | Some z => (0 <? z)%Z
            | None => false
            end = true) as Hpos.
  { intros a Ha. destruct (digits_in_positive rest a Ha) as (b & -> & Hb).
    cbn [option_map]. apply Z.ltb_lt. lia. }
  unfold valid_positive, parseInt.
  repeat destruct Hcases as [-> | Hcases]; try subst d;
    (destruct rest as [|x rest']; [vm_compute; reflexivity|]);
    apply Hpos; lia.
Qed.

Lemma numeric_check_reads_a_prefix_witness :
  valid_positive (51 :: utf16 "00 seconds") = true.
Proof.
  apply (numeric_check_reads_a_prefix 51 (utf16 "00 seconds")).
  - reflexivity.
  - discriminate.
Defined.

(** X20: a value that begins with a minus sign never passes the check of
    a numeric variable, whatever follows the sign. *)
Theorem numeric_check_rejects_minus (rest : list N) :
  valid_positive (utf16 "-" ++ rest) = false.
Proof.
  assert (utf16 "-" = [45]) as -> by (vm_compute; reflexivity).
  cbn [app]. unfold valid_positive, parseInt.
  change (drop_space (45 :: rest)) with (45 :: rest).
  cbv beta iota. change (Regex.eqc 45 "-") with true. cbv beta iota zeta.
  match goal with
  | |- match option_map _ ?m with _ => _ end = false =>
    assert (forall b, m = Some b -> (0 <= b)%Z) as Hm; [|destruct m as [b|]]
  end.
  - intros b.
    destruct rest as [|z [|x s3]];
      try (apply digits_in_nonnegative;
           [apply dec_digit_nonnegative | lia | discriminate]).
    destruct (Regex.eqc z "0" && (Regex.eqc x "x" || Regex.eqc x "X")).
    + apply digits_in_nonnegative;
        [apply hex_digit_nonnegative | lia | discriminate].
    + apply digits_in_nonnegative;
        [apply dec_digit_nonnegative | lia | discriminate].
  - cbn [option_map]. specialize (Hm b eq_refl). apply Z.ltb_ge. lia.
  - reflexivity.
Qed.

End NumericVariables.
